(** * Transaction analysis script (lab1/script.js): shallow embedding

    The script keeps a list of transaction objects and defines free-standing
    query functions over it ([filter], [reduce], [find], [map], a [Set] and a
    plain object used as a counter table).  The embedding follows the script
    function by function:

    - a JS [number] holding an amount is an IEEE-754 binary64 value, i.e. the
      kernel's primitive [float] with its round-to-nearest-even operations;
    - a JS string is a [string]; [===] on strings is [String.eqb], and the
      relational operators on two strings are the lexicographic order on
      code units ([String.leb], [String.ltb]);
    - an array is a [list]; [filter], [map], [find] and [reduce] are
      [List.filter], [List.map], [List.find] and [List.fold_left];
    - [undefined] for an omitted argument or a missing result is [None];
    - [new Date(s)] and the getters [getFullYear], [getMonth], [getDate]
      follow ECMA-262 (Date.parse of the date-only form, [LocalTime],
      [YearFromTime], [MonthFromTime], [DateFromTime]); the host's local
      time zone adjustment is an explicit argument [tza]. *)

From Stdlib Require Import ZArith List String Ascii Bool Lia Floats DecimalString Sorted Permutation.
Import ListNotations.

Local Open Scope string_scope.
Local Open Scope list_scope.
Local Open Scope Z_scope.

(** ** JavaScript values returned by the script *)

(** What the month queries return: [null], a string (an own property key of
    the counter object), or the TypeError that [reduce] raises on an empty
    array without an initial value. *)
Inductive js_result : Type :=
| JNull : js_result
| JString : string -> js_result
| JTypeError : js_result.

(** ** Transactions *)

Record Transaction : Type := mkTransaction {
  transaction_id : string;
  transaction_date : string;
  transaction_amount : float;
  transaction_type : string;
  transaction_description : string;
  merchant_name : string;
  card_type : string
}.

Definition transactions : list Transaction :=
  [ mkTransaction "1" "2019-01-01" 100.0%float "debit"
      "Payment for groceries" "SuperMart" "debit";
    mkTransaction "2" "2019-01-05" 150.0%float "credit"
      "Refund for returned item" "SuperMart" "credit";
    mkTransaction "3" "2019-02-10" 50.0%float "debit"
      "Dinner with friends" "RestaurantABC" "debit";
    mkTransaction "4" "2019-02-15" 200.0%float "debit"
      "Electronics purchase" "TechStore" "credit";
    mkTransaction "5" "2019-03-20" 80.0%float "debit"
      "Clothing shopping" "FashionOutlet" "credit" ].

(** ** Insertion-ordered Set of strings

    [new Set(iterable)] adds the elements one by one; an element already
    present is not added again, and iteration is in insertion order. *)

Definition set_has (s : list string) (x : string) : bool :=
  existsb (String.eqb x) s.

Definition set_add (s : list string) (x : string) : list string :=
  if set_has s x then s else s ++ [x].

Definition set_of_list (l : list string) : list string :=
  fold_left set_add l [].

(** [Array.from(new Set(transactions.map(t => t.transaction_type)))] *)
Definition getUniqueTransactionTypes (txs : list Transaction) : list string :=
  set_of_list (map transaction_type txs).

(** ** Sums *)

(** The reducer [(sum, t) => sum + t.transaction_amount]. *)
Definition add_amount (sum : float) (t : Transaction) : float :=
  (sum + transaction_amount t)%float.

Definition calculateTotalAmount (txs : list Transaction) : float :=
  fold_left add_amount txs 0%float.

(** [transactions.length] as a JS number. *)
Definition length_number {A : Type} (l : list A) : float :=
  PrimFloat.of_uint63 (Uint63.of_Z (Z.of_nat (List.length l))).

Definition calculateAverageTransactionAmount (txs : list Transaction) : float :=
  match txs with
  | [] => 0%float
  | _ :: _ => (calculateTotalAmount txs / length_number txs)%float
  end.

Definition is_debit (t : Transaction) : bool :=
  String.eqb (transaction_type t) "debit".

Definition is_credit (t : Transaction) : bool :=
  String.eqb (transaction_type t) "credit".

Definition calculateTotalDebitAmount (txs : list Transaction) : float :=
  fold_left add_amount (filter is_debit txs) 0%float.

(** ** Filters *)

Definition getTransactionByType (txs : list Transaction) (type : string)
  : list Transaction :=
  filter (fun t => String.eqb (transaction_type t) type) txs.

(** [a >= b] on strings is [b <= a]. *)
Definition in_date_range (startDate endDate : string) (t : Transaction) : bool :=
  String.leb startDate (transaction_date t)
  && String.leb (transaction_date t) endDate.

Definition getTransactionsInDateRange (txs : list Transaction)
  (startDate endDate : string) : list Transaction :=
  filter (in_date_range startDate endDate) txs.

Definition getTransactionsByMerchant (txs : list Transaction)
  (merchantName : string) : list Transaction :=
  filter (fun t => String.eqb (merchant_name t) merchantName) txs.

Definition getTransactionsByAmountRange (txs : list Transaction)
  (minAmount maxAmount : float) : list Transaction :=
  filter (fun t => (minAmount <=? transaction_amount t)%float
                   && (transaction_amount t <=? maxAmount)%float) txs.

Definition getTransactionsBeforeDate (txs : list Transaction) (date : string)
  : list Transaction :=
  filter (fun t => String.ltb (transaction_date t) date) txs.

Definition findTransactionById (txs : list Transaction) (id : string)
  : option Transaction :=
  find (fun t => String.eqb (transaction_id t) id) txs.

Definition mapTransactionDescriptions (txs : list Transaction) : list string :=
  map transaction_description txs.

Definition mostTransactionTypes (txs : list Transaction) : string :=
  let debitCount := List.length (filter is_debit txs) in
  let creditCount := List.length (filter is_credit txs) in
  if Nat.ltb creditCount debitCount then "debit"
  else if Nat.ltb debitCount creditCount then "credit"
  else "equal".

(** ** Dates (ECMA-262, Date objects)

    Time values are integral milliseconds since the epoch, UTC; the time
    value of an invalid date is NaN, here [None]. *)

Module EcmaDate.

Definition msPerDay : Z := 86400000.

Definition Day (t : Z) : Z := t / msPerDay.

Definition DaysInYear (y : Z) : Z :=
  if negb (y mod 4 =? 0) then 365
  else if negb (y mod 100 =? 0) then 366
  else if negb (y mod 400 =? 0) then 365
  else 366.

Definition DayFromYear (y : Z) : Z :=
  365 * (y - 1970) + (y - 1969) / 4 - (y - 1901) / 100 + (y - 1601) / 400.

Definition TimeFromYear (y : Z) : Z := msPerDay * DayFromYear y.

(** [YearFromTime(t)] is the largest [y] with [TimeFromYear(y) <= t]: the
    search starts from a year that is not after it and walks forward. *)
Fixpoint year_search (fuel : nat) (y day : Z) : Z :=
  match fuel with
  | O => y
  | S fuel' =>
      if DayFromYear (y + 1) <=? day then year_search fuel' (y + 1) day else y
  end.

Definition year_start (day : Z) : Z :=
  1970 + (if 0 <=? day then day / 366 else day / 365).

Definition year_fuel (day : Z) : nat := Z.to_nat (Z.abs day / 100000 + 2).

Definition YearFromTime (t : Z) : Z :=
  year_search (year_fuel (Day t)) (year_start (Day t)) (Day t).

Definition InLeapYear (t : Z) : Z :=
  if DaysInYear (YearFromTime t) =? 365 then 0 else 1.

Definition DayWithinYear (t : Z) : Z := Day t - DayFromYear (YearFromTime t).

Definition MonthFromTime (t : Z) : Z :=
  let d := DayWithinYear t in
  let leap := InLeapYear t in
  if d <? 31 then 0
  else if d <? 59 + leap then 1
  else if d <? 90 + leap then 2
  else if d <? 120 + leap then 3
  else if d <? 151 + leap then 4
  else if d <? 181 + leap then 5
  else if d <? 212 + leap then 6
  else if d <? 243 + leap then 7
  else if d <? 273 + leap then 8
  else if d <? 304 + leap then 9
  else if d <? 334 + leap then 10
  else 11.

Definition DateFromTime (t : Z) : Z :=
  let d := DayWithinYear t in
  let leap := InLeapYear t in
  match MonthFromTime t with
  | 0 => d + 1
  | 1 => d - 30
  | 2 => d - 58 - leap
  | 3 => d - 89 - leap
  | 4 => d - 119 - leap
  | 5 => d - 150 - leap
  | 6 => d - 180 - leap
  | 7 => d - 211 - leap
  | 8 => d - 242 - leap
  | 9 => d - 272 - leap
  | 10 => d - 303 - leap
  | _ => d - 333 - leap
  end.

(** [LocalTime(t) = t + LocalTZA(t, true)]; [tza] gives the host's offset
    from UTC in milliseconds at the UTC time [t]. *)
Definition LocalTime (tza : Z -> Z) (t : Z) : Z := t + tza t.

(** Days from the start of year [y] to the start of month [m] (0-11). *)
Definition DaysBeforeMonth (y m : Z) : Z :=
  let leap := if DaysInYear y =? 365 then 0 else 1 in
  match m with
  | 0 => 0
  | 1 => 31
  | 2 => 59 + leap
  | 3 => 90 + leap
  | 4 => 120 + leap
  | 5 => 151 + leap
  | 6 => 181 + leap
  | 7 => 212 + leap
  | 8 => 243 + leap
  | 9 => 273 + leap
  | 10 => 304 + leap
  | _ => 334 + leap
  end.

Definition DaysInMonth (y m : Z) : Z :=
  let leap := if DaysInYear y =? 365 then 0 else 1 in
  match m with
  | 0 => 31
  | 1 => 28 + leap
  | 2 => 31
  | 3 => 30
  | 4 => 31
  | 5 => 30
  | 6 => 31
  | 7 => 31
  | 8 => 30
  | 9 => 31
  | 10 => 30
  | _ => 31
  end.

(** [MakeDay(year, month, date)] for a month in 0-11. *)
Definition MakeDay (year month date : Z) : Z :=
  DayFromYear year + DaysBeforeMonth year month + date - 1.

Definition MakeDate (day time : Z) : Z := day * msPerDay + time.

Definition digit (c : ascii) : option Z :=
  let n := Z.of_N (N_of_ascii c) in
  if (48 <=? n) && (n <=? 57) then Some (n - 48) else None.

Definition digits2 (a b : ascii) : option Z :=
  match digit a, digit b with
  | Some x, Some y => Some (10 * x + y)
  | _, _ => None
  end.

Definition digits4 (a b c d : ascii) : option Z :=
  match digits2 a b, digits2 c d with
  | Some x, Some y => Some (100 * x + y)
  | _, _ => None
  end.

(** The fields of a date-only string [YYYY-MM-DD] of the Date Time String
    Format: four digits, two digits, two digits, with a month and a day
    that exist in the calendar. *)
Definition date_fields (s : string) : option (Z * Z * Z) :=
  match s with
  | String y1 (String y2 (String y3 (String y4 (String sep1
      (String m1 (String m2 (String sep2 (String d1 (String d2 EmptyString))))))))) =>
      if Ascii.eqb sep1 "-" && Ascii.eqb sep2 "-" then
        match digits4 y1 y2 y3 y4, digits2 m1 m2, digits2 d1 d2 with
        | Some y, Some m, Some d =>
            if (1 <=? m) && (m <=? 12)
               && (1 <=? d) && (d <=? DaysInMonth y (m - 1))
            then Some (y, m, d)
            else None
        | _, _, _ => None
        end
      else None
  | _ => None
  end.

(** [Date.parse] on the full date-only form [YYYY-MM-DD], which is read as
    UTC midnight of that day: this is the form the script's records
    document, and the only one the model covers.  Every other string is
    given NaN here, which is NOT what a host does in general: ECMA-262
    also reads the shorter date-only forms [YYYY] and [YYYY-MM] and the
    date-time forms, and engines accept more (V8 reads "2019-1-1" and
    rolls "2019-02-29" over to 1 March, where ECMA-262 asks for NaN).
    The properties that relate a result to the dates written in the
    records therefore assume valid [YYYY-MM-DD] dates ([date_fields] is
    not [None]). *)
Definition parse (s : string) : option Z :=
  match date_fields s with
  | Some (y, m, d) => Some (MakeDate (MakeDay y (m - 1) d) 0)
  | None => None
  end.

(** A Date object is its time value. *)
Definition Date : Type := option Z.

Definition new_Date (s : string) : Date := parse s.

Definition getFullYear (tza : Z -> Z) (d : Date) : option Z :=
  option_map (fun t => YearFromTime (LocalTime tza t)) d.

Definition getMonth (tza : Z -> Z) (d : Date) : option Z :=
  option_map (fun t => MonthFromTime (LocalTime tza t)) d.

Definition getDate (tza : Z -> Z) (d : Date) : option Z :=
  option_map (fun t => DateFromTime (LocalTime tza t)) d.

End EcmaDate.

Import EcmaDate.

(** ** Date-part filter *)

(** [x === v] for a getter result [x] (NaN is [None]) and a number [v]. *)
Definition strict_eq_number (x : option Z) (v : Z) : bool :=
  match x with
  | Some n => n =? v
  | None => false
  end.

(** [arg === undefined || part === arg] *)
Definition matches_part (arg : option Z) (part : option Z) : bool :=
  match arg with
  | None => true
  | Some v => strict_eq_number part v
  end.

(** [date.getMonth() + 1]; NaN + 1 is NaN. *)
Definition month_number (tza : Z -> Z) (d : Date) : option Z :=
  option_map (fun m => m + 1) (getMonth tza d).

Definition matches_date (tza : Z -> Z) (year month day : option Z)
  (t : Transaction) : bool :=
  let date := new_Date (transaction_date t) in
  let matchesYear := matches_part year (getFullYear tza date) in
  let matchesMonth := matches_part month (month_number tza date) in
  let matchesDay := matches_part day (getDate tza date) in
  matchesYear && matchesMonth && matchesDay.

Definition calculateTotalAmountByDate (tza : Z -> Z)
  (txs : list Transaction) (year month day : option Z) : float :=
  fold_left add_amount (filter (matches_date tza year month day) txs) 0%float.

(** ** The counter object

    An ordinary object lists its own keys with the integer-index keys first,
    in ascending numeric order, and then the other string keys in the order
    they were created.  The object is kept as an association list in that
    order. *)

Inductive prop_key : Type :=
| KIndex : N -> prop_key
| KName : string -> prop_key.

Definition key_eqb (a b : prop_key) : bool :=
  match a, b with
  | KIndex m, KIndex n => N.eqb m n
  | KName s, KName r => String.eqb s r
  | _, _ => false
  end.

(** The string a key is, as [Object.keys] returns it. *)
Definition key_to_string (k : prop_key) : string :=
  match k with
  | KIndex n => NilZero.string_of_uint (N.to_uint n)
  | KName s => s
  end.

(** The property key of a month number used as a subscript: a month number
    (1-12) is an integer index, NaN is the name "NaN". *)
Definition month_key (m : option Z) : prop_key :=
  match m with
  | Some n => KIndex (Z.to_N n)
  | None => KName "NaN"
  end.

Definition js_object : Type := list (prop_key * nat).

Fixpoint obj_get (o : js_object) (k : prop_key) : option nat :=
  match o with
  | [] => None
  | (k', v) :: o' => if key_eqb k k' then Some v else obj_get o' k
  end.

(** [true] when a new key [k] is listed before the existing key [k']. *)
Definition key_before (k k' : prop_key) : bool :=
  match k, k' with
  | KIndex m, KIndex n => N.ltb m n
  | KIndex _, KName _ => true
  | KName _, _ => false
  end.

Fixpoint obj_set (o : js_object) (k : prop_key) (v : nat) : js_object :=
  match o with
  | [] => [(k, v)]
  | (k', v') :: o' =>
      if key_eqb k k' then (k', v) :: o'
      else if key_before k k' then (k, v) :: (k', v') :: o'
      else (k', v') :: obj_set o' k v
  end.

Definition obj_keys (o : js_object) : list prop_key := map fst o.

(** The key that [counts[month]] addresses for the record [t], with
    [month = new Date(t.transaction_date).getMonth() + 1]. *)
Definition tx_month_key (tza : Z -> Z) (t : Transaction) : prop_key :=
  month_key (month_number tza (new_Date (transaction_date t))).

(** [counts[month] = (counts[month] || 0) + 1] *)
Definition count_month (tza : Z -> Z) (counts : js_object) (t : Transaction)
  : js_object :=
  let month := tx_month_key tza t in
  let old := match obj_get counts month with Some c => c | None => O end in
  obj_set counts month (old + 1)%nat.

Definition month_counts (tza : Z -> Z) (txs : list Transaction) : js_object :=
  fold_left (count_month tza) txs [].

(** [counts[a] > counts[b]]; a comparison with [undefined] is false. *)
Definition count_gt (counts : js_object) (a b : prop_key) : bool :=
  match obj_get counts a, obj_get counts b with
  | Some x, Some y => Nat.ltb y x
  | _, _ => false
  end.

(** The callback [(a, b) => counts[a] > counts[b] ? a : b]. *)
Definition pick_key (counts : js_object) (a b : prop_key) : prop_key :=
  if count_gt counts a b then a else b.

(** [keys.reduce(f)] without an initial value. *)
Definition reduce_keys (f : prop_key -> prop_key -> prop_key)
  (keys : list prop_key) : js_result :=
  match keys with
  | [] => JTypeError
  | k :: ks => JString (key_to_string (fold_left f ks k))
  end.

Definition findMostTransactionsMonth (tza : Z -> Z) (txs : list Transaction)
  : js_result :=
  match txs with
  | [] => JNull
  | _ :: _ =>
      let counts := month_counts tza txs in
      reduce_keys (pick_key counts) (obj_keys counts)
  end.

Definition findMostDebitTransactionMonth (tza : Z -> Z)
  (txs : list Transaction) : js_result :=
  let debitTransactions := filter is_debit txs in
  findMostTransactionsMonth tza debitTransactions.

(** Hosts used in the examples: UTC, and a host five hours west of it. *)
Definition tza_utc : Z -> Z := fun _ => 0.
Definition tza_minus5 : Z -> Z := fun _ => -18000000.

(** A host's local time is less than a day away from UTC. *)
Definition tza_bounded (tza : Z -> Z) : Prop :=
  forall t, - msPerDay < tza t < msPerDay.

(** ** Values of non-negative binary64 numbers

    Every finite binary64 number is a multiple of [2^-1074]; the value of a
    non-negative number is counted in that unit, and [+Infinity] is given
    the first value that is out of range, [2^1024] (that is [2^2098]
    units).  The functions below state round-to-nearest-even on these
    values; they are used to reason about [+] on amounts, which the kernel
    specifies by [SFadd]. *)

Definition inf_value : Z := 2 ^ 2098.

(** Number of low bits dropped when [n] is rounded to 53 significant bits. *)
Definition rshift (n : Z) : Z := Z.max (Z.log2 n + 1 - 53) 0.

(** Round-to-nearest-even increment for quotient [q] and remainder [r]
    of a division by [2^k]. *)
Definition round_up (q r k : Z) : Z :=
  if (2 ^ k <? 2 * r) || ((2 ^ k =? 2 * r) && Z.odd q) then 1 else 0.

Definition round_mant (m k : Z) : Z :=
  m / 2 ^ k + round_up (m / 2 ^ k) (m mod 2 ^ k) k.

(** [n] rounded to 53 significant bits, and then to the binary64 range. *)
Definition rn (n : Z) : Z := round_mant n (rshift n) * 2 ^ rshift n.

Definition rnd (n : Z) : Z := Z.min inf_value (rn n).

Definition SFvalue (x : spec_float) : Z :=
  match x with
  | S754_zero _ => 0
  | S754_infinity _ => inf_value
  | S754_nan => 0
  | S754_finite _ m e => Zpos m * 2 ^ (e + 1074)
  end.

Definition SFnonneg (x : spec_float) : bool :=
  match x with
  | S754_zero _ => true
  | S754_infinity s => negb s
  | S754_nan => false
  | S754_finite s _ _ => negb s
  end.

(** [0 <= x] on numbers: [x] is not NaN and not negative. *)
Definition fnonneg (x : float) : Prop := (0 <=? x)%float = true.

Definition float_value (x : float) : Z := SFvalue (Prim2SF x).

(** ** Auxiliary notions used to state the properties *)

(** The date filter as the specification words it: a record matches when
    the year, month (1-12) and day written in its date agree with every
    part that is given. *)
Definition part_agrees (arg : option Z) (v : Z) : bool :=
  match arg with
  | None => true
  | Some a => v =? a
  end.

Definition is_omitted (arg : option Z) : bool :=
  match arg with
  | None => true
  | Some _ => false
  end.

Definition matches_calendar (year month day : option Z) (t : Transaction)
  : bool :=
  match date_fields (transaction_date t) with
  | Some (y, m, d) =>
      part_agrees year y && part_agrees month m && part_agrees day d
  | None => is_omitted year && is_omitted month && is_omitted day
  end.

(** Hosts at UTC or east of it. *)
Definition tza_east (tza : Z -> Z) : Prop :=
  forall t, 0 <= tza t < msPerDay.

(** [subseq l1 l2]: [l1] is [l2] with some elements left out, the others
    keeping their relative order. *)
Inductive subseq {A : Type} : list A -> list A -> Prop :=
| subseq_nil : subseq [] []
| subseq_skip : forall x l1 l2, subseq l1 l2 -> subseq l1 (x :: l2)
| subseq_keep : forall x l1 l2, subseq l1 l2 -> subseq (x :: l1) (x :: l2).

(** Position of the first occurrence of [x] in [l] ([length l] if none). *)
Fixpoint index_of (x : string) (l : list string) : nat :=
  match l with
  | [] => O
  | y :: l' => if String.eqb x y then O else S (index_of x l')
  end.

(** The order in which an object lists two of its own keys: integer
    indices ascending, every integer index before every other key. *)
Definition key_precedes (a b : prop_key) : Prop :=
  match a, b with
  | KIndex m, KIndex n => (m < n)%N
  | KIndex _, KName _ => True
  | KName _, KIndex _ => False
  | KName s, KName r => s <> r
  end.

(** Own keys are listed in key order, each once. *)
Definition keys_ordered (o : js_object) : Prop :=
  StronglySorted key_precedes (obj_keys o).

(** [key_le a b]: [a] is [b] or is listed before it; between month numbers
    this is [<=], and the key of an invalid date comes after them. *)
Definition key_le (a b : prop_key) : Prop :=
  match a, b with
  | KIndex m, KIndex n => (m <= n)%N
  | KIndex _, KName _ => True
  | KName _, KIndex _ => False
  | KName s, KName r => s = r
  end.

(** Number of records of [txs] counted under the key [k]. *)
Definition month_count (tza : Z -> Z) (txs : list Transaction) (k : prop_key)
  : nat :=
  List.length (filter (fun t => key_eqb (tx_month_key tza t) k) txs).

(** The count stored under a key ([0] when the key is absent). *)
Definition count_of (o : js_object) (k : prop_key) : nat :=
  match obj_get o k with
  | Some c => c
  | None => O
  end.

(** The highest count stored in the object. *)
Definition highest_count (o : js_object) : nat :=
  fold_right Nat.max O (map snd o).

(** The tie-break as the specification words it: among the keys with the
    highest count, the one met first when the keys are walked in [order]
    (the object's key order, or the order in which the records created the
    keys). *)
Definition first_tied_key (o : js_object) (order : list prop_key)
  : option prop_key :=
  find (fun k => Nat.eqb (count_of o k) (highest_count o)) order.

(** Two records, in January and in March: the two months are tied. *)
Definition tie_sample : list Transaction :=
  [ mkTransaction "a" "2019-01-15" 10.0%float "debit" "first" "ShopA" "debit";
    mkTransaction "b" "2019-03-15" 20.0%float "debit" "second" "ShopB" "debit" ].

(** ** Notions used to state further properties *)

(** Hosts west of UTC. *)
Definition tza_west (tza : Z -> Z) : Prop :=
  forall t, - msPerDay <= tza t < 0.

(** The value of a binary64 number of either sign, in units of [2^-1074]
    (NaN has no value; [0] stands in for it). *)
Definition SFsigned (x : spec_float) : Z :=
  match x with
  | S754_zero _ => 0
  | S754_infinity s => if s then - inf_value else inf_value
  | S754_nan => 0
  | S754_finite s m e =>
      if s then - (Zpos m * 2 ^ (e + 1074)) else Zpos m * 2 ^ (e + 1074)
  end.

Definition SFis_nan (x : spec_float) : bool :=
  match x with
  | S754_nan => true
  | _ => false
  end.

(** Sum of a list of integers. *)
Definition sum_Z (ns : list Z) : Z := fold_right Z.add 0 ns.

(** The record [t] has the whole, non-negative amount [n]. *)
Definition whole_amount (t : Transaction) (n : Z) : Prop :=
  0 <= n
  /\ fnonneg (transaction_amount t)
  /\ float_value (transaction_amount t) = n * 2 ^ 1074.

(** Three records with the amounts [2^53], 1 and 1, in two orders. *)
Definition large_first : list Transaction :=
  [ mkTransaction "a" "2019-01-15" 9007199254740992%float "debit" "" "" "debit";
    mkTransaction "b" "2019-01-16" 1%float "debit" "" "" "debit";
    mkTransaction "c" "2019-01-17" 1%float "debit" "" "" "debit" ].

Definition large_last : list Transaction :=
  [ mkTransaction "b" "2019-01-16" 1%float "debit" "" "" "debit";
    mkTransaction "c" "2019-01-17" 1%float "debit" "" "" "debit";
    mkTransaction "a" "2019-01-15" 9007199254740992%float "debit" "" "" "debit" ].

(** Number of records of the collection that have the type [ty]. *)
Definition type_count (ty : string) (txs : list Transaction) : nat :=
  count_occ string_dec (map transaction_type txs) ty.

(** The strings a month query can return. *)
Definition month_strings : list string :=
  ["1"; "2"; "3"; "4"; "5"; "6"; "7"; "8"; "9"; "10"; "11"; "12"; "NaN"].

(** Sum of the counts stored in the counter object. *)
Definition obj_total (o : js_object) : nat :=
  fold_right (fun kv s => (snd kv + s)%nat) O o.

(** ** Notions on written dates and on whole numbers *)

(** The month (1-12) written in the record's date, if the date is a valid
    [YYYY-MM-DD] date. *)
Definition written_month (t : Transaction) : option Z :=
  match date_fields (transaction_date t) with
  | Some (_, m, _) => Some m
  | None => None
  end.

(** Number of records of the collection whose date is written in month
    [m]. *)
Definition written_month_count (txs : list Transaction) (m : Z) : nat :=
  List.length
    (filter (fun t => match written_month t with
                      | Some mt => mt =? m
                      | None => false
                      end) txs).

(** The decimal string of a month number. *)
Definition month_string (m : Z) : string :=
  NilZero.string_of_uint (N.to_uint (Z.to_N m)).

(** Every record has a valid [YYYY-MM-DD] date. *)
Definition valid_dates (txs : list Transaction) : Prop :=
  Forall (fun t => date_fields (transaction_date t) <> None) txs.

Definition SFis_finite (x : spec_float) : bool :=
  match x with
  | S754_zero _ | S754_finite _ _ _ => true
  | _ => false
  end.

(** The number [x] is the integer [k]: it is finite and its signed value
    is [k] (in units of [2^-1074]). *)
Definition float_is_whole (x : float) (k : Z) : Prop :=
  SFis_finite (Prim2SF x) = true
  /\ SFsigned (Prim2SF x) = k * 2 ^ 1074.

(** * Properties *)

(** ** Sanity checks of the embedding on concrete inputs *)

Example sample_unique_types :
  getUniqueTransactionTypes transactions = ["debit"; "credit"].
Proof. vm_compute. reflexivity. Qed.

Example sample_parse :
  new_Date "1970-01-01" = Some 0
  /\ new_Date "2019-01-01" = Some 1546300800000
  /\ new_Date "2019-02-29" = None
  /\ new_Date "2019-1-1" = None.
Proof. vm_compute. auto. Qed.

Example sample_getters_utc :
  let d := new_Date "2020-02-29" in
  (getFullYear tza_utc d, getMonth tza_utc d, getDate tza_utc d)
  = (Some 2020, Some 1, Some 29).
Proof. vm_compute. reflexivity. Qed.

Example sample_getters_west :
  let d := new_Date "2019-01-01" in
  (getFullYear tza_minus5 d, getMonth tza_minus5 d, getDate tza_minus5 d)
  = (Some 2018, Some 11, Some 31).
Proof. vm_compute. reflexivity. Qed.

Example sample_counts_west :
  month_counts tza_minus5 transactions
  = [(KIndex 1, 1%nat); (KIndex 2, 2%nat); (KIndex 3, 1%nat); (KIndex 12, 1%nat)].
Proof. vm_compute. reflexivity. Qed.

(** ** Lists *)

Section ListFacts.
Context {A : Type}.
Implicit Types (p : A -> bool) (l : list A).

Lemma filter_idempotent p l : filter p (filter p l) = filter p l.
Proof.
  induction l as [|x l IH]; simpl; [reflexivity|].
  destruct (p x) eqn:Hx; simpl; [rewrite Hx, IH|]; auto.
Qed.

Lemma filter_all_true p l :
  (forall x, p x = true) -> filter p l = l.
Proof.
  intros Hp. induction l as [|x l IH]; simpl; [reflexivity|].
  rewrite Hp, IH. reflexivity.
Qed.

Lemma filter_subseq p l : subseq (filter p l) l.
Proof.
  induction l as [|x l IH]; simpl; [constructor|].
  destruct (p x); constructor; exact IH.
Qed.

Lemma filter_partition_length p q l :
  Forall (fun x => xorb (p x) (q x) = true) l ->
  (List.length (filter p l) + List.length (filter q l))%nat = List.length l.
Proof.
  induction 1 as [|x l Hx _ IH]; simpl; [reflexivity|].
  destruct (p x), (q x); simpl in *; try discriminate; lia.
Qed.

Lemma find_first p l :
  match find p l with
  | Some x =>
      exists l1 l2, l = l1 ++ x :: l2 /\ p x = true
                    /\ Forall (fun y => p y = false) l1
  | None => Forall (fun y => p y = false) l
  end.
Proof.
  induction l as [|x l IH]; simpl; [constructor|].
  destruct (p x) eqn:Hx.
  - exists [], l. auto.
  - destruct (find p l) as [y|].
    + destruct IH as (l1 & l2 & -> & Hy & Hl1).
      exists (x :: l1), l2. auto.
    + constructor; assumption.
Qed.
End ListFacts.

(** ** C5: lookup by id *)

(** C5. [findTransactionById] returns the first record whose id is [id]:
    the records before it all have another id; and it returns [undefined]
    exactly when no record of the collection has that id.  It has no
    failing case. *)
Theorem C5_find_by_id (txs : list Transaction) (id : string) :
  match findTransactionById txs id with
  | Some t =>
      transaction_id t = id
      /\ exists before after,
           txs = before ++ t :: after
           /\ Forall (fun u => transaction_id u <> id) before
  | None => Forall (fun u => transaction_id u <> id) txs
  end.
Proof.
  unfold findTransactionById.
  pose proof (find_first (fun t => String.eqb (transaction_id t) id) txs) as H.
  destruct (find _ txs) as [t|].
  - destruct H as (l1 & l2 & -> & Ht & Hl1).
    apply String.eqb_eq in Ht. split; [exact Ht|].
    exists l1, l2. split; [reflexivity|].
    eapply Forall_impl; [|exact Hl1].
    intros u Hu. apply String.eqb_neq. exact Hu.
  - eapply Forall_impl; [|exact H].
    intros u Hu. apply String.eqb_neq. exact Hu.
Qed.

(** ** C7: filter by type *)

(** C7. Every record of [getTransactionByType txs type] has that type, the
    result keeps the records in their original relative order, and when all
    records are debit or credit the two results together have as many
    records as the collection. *)
Theorem C7_by_type (txs : list Transaction) (type : string) :
  Forall (fun t => transaction_type t = type) (getTransactionByType txs type)
  /\ subseq (getTransactionByType txs type) txs
  /\ (Forall (fun t => transaction_type t = "debit"
                       \/ transaction_type t = "credit") txs ->
      (List.length (getTransactionByType txs "debit")
       + List.length (getTransactionByType txs "credit"))%nat = List.length txs).
Proof.
  unfold getTransactionByType. split; [|split].
  - apply Forall_forall. intros t Ht.
    apply filter_In in Ht. apply String.eqb_eq, Ht.
  - apply filter_subseq.
  - intros Hall. apply filter_partition_length.
    eapply Forall_impl; [|exact Hall].
    intros t [-> | ->]; reflexivity.
Qed.

Lemma C7_by_type_witness :
  (List.length (getTransactionByType transactions "debit")
   + List.length (getTransactionByType transactions "credit"))%nat
  = List.length transactions.
Proof.
  apply (proj2 (proj2 (C7_by_type transactions "debit"))).
  repeat (apply Forall_cons; [simpl; auto|]). apply Forall_nil.
Defined.

(** ** C8: date range *)

(** C8. Filtering the result of [getTransactionsInDateRange] again with the
    same bounds gives the same sequence. *)
Theorem C8_date_range_idempotent (txs : list Transaction) (startDate endDate : string) :
  getTransactionsInDateRange
    (getTransactionsInDateRange txs startDate endDate) startDate endDate
  = getTransactionsInDateRange txs startDate endDate.
Proof. apply filter_idempotent. Qed.

(** ** C9: no date part given *)

(** C9. With year, month and day all omitted, [calculateTotalAmountByDate]
    is [calculateTotalAmount], whatever the host's time zone and whatever
    the date strings are. *)
Theorem C9_no_part_is_total (tza : Z -> Z) (txs : list Transaction) :
  calculateTotalAmountByDate tza txs None None None = calculateTotalAmount txs.
Proof.
  unfold calculateTotalAmountByDate, calculateTotalAmount.
  rewrite filter_all_true; [reflexivity|].
  intros t. reflexivity.
Qed.

(** ** C10: unique transaction types *)

Lemma set_has_In (s : list string) (x : string) :
  set_has s x = true <-> In x s.
Proof.
  unfold set_has. rewrite existsb_exists. split.
  - intros (y & Hy & Heq). apply String.eqb_eq in Heq. subst. exact Hy.
  - intros Hx. exists x. split; [exact Hx | apply String.eqb_refl].
Qed.

Lemma set_has_false (s : list string) (x : string) :
  set_has s x = false <-> ~ In x s.
Proof.
  rewrite <- set_has_In. destruct (set_has s x); split; congruence.
Qed.

Lemma index_of_lt (x : string) (l : list string) :
  In x l -> (index_of x l < List.length l)%nat.
Proof.
  induction l as [|y l IH]; simpl; [tauto|].
  intros Hin. destruct (String.eqb_spec x y) as [->|Hne]; [lia|].
  destruct Hin as [->|Hin]; [congruence|]. apply IH in Hin. lia.
Qed.

Lemma index_of_app (x : string) (l1 l2 : list string) :
  index_of x (l1 ++ l2)
  = if set_has l1 x then index_of x l1
    else (List.length l1 + index_of x l2)%nat.
Proof.
  induction l1 as [|y l1 IH]; simpl; [reflexivity|].
  unfold set_has in *. simpl.
  destruct (String.eqb x y); simpl; [reflexivity|].
  rewrite IH. destruct (existsb _ l1); reflexivity.
Qed.

(** Invariant of the loop that fills the set: starting from the
    duplicate-free [acc], the final set is duplicate-free, holds what [acc]
    and [l] hold, and lists its elements in the order of their first
    occurrences in [acc ++ l]. *)
Lemma set_fill_spec (l acc : list string) :
  NoDup acc ->
  let r := fold_left set_add l acc in
  NoDup r
  /\ (forall x, In x r <-> In x acc \/ In x l)
  /\ (forall a b, In a r -> In b r ->
        (index_of a r < index_of b r)%nat
        <-> (index_of a (acc ++ l) < index_of b (acc ++ l))%nat).
Proof.
  revert acc. induction l as [|x l IH]; intros acc Hnd; cbv zeta; simpl.
  - rewrite app_nil_r. repeat split; tauto.
  - destruct (set_has acc x) eqn:Hx.
    + replace (set_add acc x) with acc by (unfold set_add; now rewrite Hx).
      destruct (IH acc Hnd) as (Hr & Hin & Hord).
      apply set_has_In in Hx.
      split; [exact Hr|]. split.
      * intros y. rewrite Hin. split; [tauto|].
        intros [H|[<-|H]]; auto.
      * intros a b Ha Hb. rewrite (Hord a b Ha Hb).
        rewrite !index_of_app. simpl.
        destruct (set_has acc a) eqn:Hacca, (set_has acc b) eqn:Haccb.
        -- reflexivity.
        -- apply set_has_In, index_of_lt in Hacca. lia.
        -- apply set_has_In, index_of_lt in Haccb. lia.
        -- apply set_has_false in Hacca, Haccb.
           destruct (String.eqb_spec a x) as [->|_]; [tauto|].
           destruct (String.eqb_spec b x) as [->|_]; [tauto|].
           lia.
    + replace (set_add acc x) with (acc ++ [x])
        by (unfold set_add; now rewrite Hx).
      apply set_has_false in Hx.
      assert (Hnd' : NoDup (acc ++ [x])).
      { apply NoDup_app; [exact Hnd | repeat constructor; simpl; tauto |].
        intros y Hy [<-|[]]. exact (Hx Hy). }
      destruct (IH (acc ++ [x]) Hnd') as (Hr & Hin & Hord).
      rewrite <- app_assoc in Hord. simpl in Hord.
      split; [exact Hr|]. split; [|exact Hord].
      intros y. rewrite Hin, in_app_iff. simpl. tauto.
Qed.

(** C10. [getUniqueTransactionTypes] lists every transaction type that
    occurs in the collection, each exactly once, and in the order of their
    first occurrences. *)
Theorem C10_unique_types (txs : list Transaction) :
  let r := getUniqueTransactionTypes txs in
  let types := map transaction_type txs in
  NoDup r
  /\ (forall x, In x r <-> exists t, In t txs /\ transaction_type t = x)
  /\ (forall a b, In a r -> In b r ->
        (index_of a r < index_of b r)%nat
        <-> (index_of a types < index_of b types)%nat).
Proof.
  unfold getUniqueTransactionTypes, set_of_list.
  destruct (set_fill_spec (map transaction_type txs) [] (NoDup_nil _))
    as (Hr & Hin & Hord).
  split; [exact Hr|]. split.
  - intros x. rewrite Hin, in_map_iff. simpl. split.
    + intros [[]|(t & Ht & Hin')]. exists t. auto.
    + intros (t & Hin' & Ht). right. exists t. auto.
  - exact Hord.
Qed.

Lemma C10_unique_types_witness :
  (index_of "debit" (getUniqueTransactionTypes transactions)
   < index_of "credit" (getUniqueTransactionTypes transactions))%nat
  <-> (index_of "debit" (map transaction_type transactions)
       < index_of "credit" (map transaction_type transactions))%nat.
Proof.
  apply (proj2 (proj2 (C10_unique_types transactions))); simpl; auto.
Defined.

(** ** Dates: what the getters depend on *)

Lemma YearFromTime_Day (t1 t2 : Z) :
  Day t1 = Day t2 -> YearFromTime t1 = YearFromTime t2.
Proof. unfold YearFromTime. intros ->. reflexivity. Qed.

Lemma MonthFromTime_Day (t1 t2 : Z) :
  Day t1 = Day t2 -> MonthFromTime t1 = MonthFromTime t2.
Proof.
  intros H. unfold MonthFromTime, DayWithinYear, InLeapYear.
  rewrite (YearFromTime_Day t1 t2 H), H. reflexivity.
Qed.

Lemma Day_MakeDate (d : Z) : Day (MakeDate d 0) = d.
Proof.
  unfold Day, MakeDate. rewrite Z.add_0_r.
  apply Z.div_mul. discriminate.
Qed.

(** *** The year search and the calendar tables *)

Lemma DaysInYear_cases (y : Z) : DaysInYear y = 365 \/ DaysInYear y = 366.
Proof.
  unfold DaysInYear.
  destruct (y mod 4 =? 0), (y mod 100 =? 0), (y mod 400 =? 0); simpl; auto.
Qed.

Lemma DayFromYear_succ (y : Z) :
  DayFromYear (y + 1) = DayFromYear y + DaysInYear y.
Proof.
  unfold DayFromYear, DaysInYear.
  destruct (Z.eqb_spec (y mod 4) 0), (Z.eqb_spec (y mod 100) 0),
    (Z.eqb_spec (y mod 400) 0); simpl negb; cbv iota;
    Z.to_euclidean_division_equations; lia.
Qed.

(** Between two years there are 365 or 366 days per year. *)
Lemma DayFromYear_diff (y1 y2 : Z) :
  y1 <= y2 ->
  365 * (y2 - y1) <= DayFromYear y2 - DayFromYear y1 <= 366 * (y2 - y1).
Proof.
  intros Hle. pattern y2. apply (Zlt_lower_bound_rec _ y1); [|exact Hle].
  clear y2 Hle. intros y2 IH Hle.
  destruct (Z.eq_dec y2 y1) as [->|Hne]; [lia|].
  specialize (IH (y2 - 1) ltac:(lia)).
  pose proof (DayFromYear_succ (y2 - 1)) as Hs.
  replace (y2 - 1 + 1) with y2 in Hs by lia.
  pose proof (DaysInYear_cases (y2 - 1)). lia.
Qed.

Lemma DayFromYear_lt_mono (y1 y2 : Z) :
  DayFromYear y1 < DayFromYear y2 -> y1 < y2.
Proof.
  intros Hlt. destruct (Z_lt_le_dec y1 y2) as [|Hge]; [assumption|].
  pose proof (DayFromYear_diff y2 y1 Hge). lia.
Qed.

Lemma DayFromYear_1970 : DayFromYear 1970 = 0.
Proof. reflexivity. Qed.

Lemma year_start_le (day : Z) : DayFromYear (year_start day) <= day.
Proof.
  unfold year_start. destruct (Z.leb_spec 0 day) as [Hpos|Hneg].
  - pose proof (DayFromYear_diff 1970 (1970 + day / 366)
                  ltac:(Z.to_euclidean_division_equations; lia)) as H.
    rewrite DayFromYear_1970 in H.
    Z.to_euclidean_division_equations; lia.
  - pose proof (DayFromYear_diff (1970 + day / 365) 1970
                  ltac:(Z.to_euclidean_division_equations; lia)) as H.
    rewrite DayFromYear_1970 in H.
    Z.to_euclidean_division_equations; lia.
Qed.

(** A year that starts on or before [day] is within the search's reach. *)
Lemma year_fuel_enough (day y : Z) :
  DayFromYear y <= day ->
  (Z.to_nat (y - year_start day) < year_fuel day)%nat.
Proof.
  intros Hy. unfold year_fuel, year_start, DayFromYear in *.
  destruct (Z.leb_spec 0 day) as [Hpos|Hneg];
    Z.to_euclidean_division_equations; lia.
Qed.

Lemma year_search_spec (fuel : nat) (s day : Z) :
  DayFromYear s <= day ->
  (forall y, DayFromYear y <= day -> (Z.to_nat (y - s) < fuel)%nat) ->
  DayFromYear (year_search fuel s day) <= day
  < DayFromYear (year_search fuel s day + 1).
Proof.
  revert s. induction fuel as [|fuel IH]; intros s Hs Hfuel.
  - specialize (Hfuel s Hs). lia.
  - simpl. destruct (Z.leb_spec (DayFromYear (s + 1)) day) as [Hnext|Hstop].
    + apply IH; [exact Hnext|].
      intros y Hy. pose proof (Hfuel y Hy). pose proof (Hfuel (s + 1) Hnext).
      lia.
    + lia.
Qed.

(** [YearFromTime(t)] is the year whose days include the day of [t] ... *)
Theorem YearFromTime_spec (t : Z) :
  DayFromYear (YearFromTime t) <= Day t < DayFromYear (YearFromTime t + 1).
Proof.
  unfold YearFromTime. apply year_search_spec.
  - apply year_start_le.
  - intros y. apply year_fuel_enough.
Qed.

(** ... and there is one such year. *)
Theorem YearFromTime_unique (t y : Z) :
  DayFromYear y <= Day t < DayFromYear (y + 1) -> YearFromTime t = y.
Proof.
  intros Hy. pose proof (YearFromTime_spec t) as Hr.
  assert (y < YearFromTime t + 1) by (apply DayFromYear_lt_mono; lia).
  assert (YearFromTime t < y + 1) by (apply DayFromYear_lt_mono; lia).
  lia.
Qed.

(** ECMA-262: [YearFromTime(t)] is the largest [y] with
    [TimeFromYear(y) <= t]. *)
Theorem YearFromTime_largest (t : Z) :
  TimeFromYear (YearFromTime t) <= t
  /\ forall y, TimeFromYear y <= t -> y <= YearFromTime t.
Proof.
  pose proof (YearFromTime_spec t) as [Hlo Hhi].
  unfold TimeFromYear, Day, msPerDay in *. split.
  - Z.to_euclidean_division_equations; lia.
  - intros y Hy.
    assert (y < YearFromTime t + 1); [|lia].
    apply DayFromYear_lt_mono.
    Z.to_euclidean_division_equations; lia.
Qed.

Lemma leap_cases (y : Z) :
  (DaysInYear y = 365 /\ (if DaysInYear y =? 365 then 0 else 1) = 0)
  \/ (DaysInYear y = 366 /\ (if DaysInYear y =? 365 then 0 else 1) = 1).
Proof. destruct (DaysInYear_cases y) as [H|H]; rewrite H; auto. Qed.

(** Proves a disjunction of closed conjunctions by its first disjunct that
    holds by computation. *)
Ltac pick_disjunct :=
  repeat first [ solve [left; repeat split; reflexivity] | right ];
  repeat split; reflexivity.

(** The months of year [y]: days before the month, days in the month. *)
Lemma month_table (y m : Z) :
  0 <= m <= 11 ->
  let leap := if DaysInYear y =? 365 then 0 else 1 in
  (m = 0 /\ DaysBeforeMonth y m = 0 /\ DaysInMonth y m = 31)
  \/ (m = 1 /\ DaysBeforeMonth y m = 31 /\ DaysInMonth y m = 28 + leap)
  \/ (m = 2 /\ DaysBeforeMonth y m = 59 + leap /\ DaysInMonth y m = 31)
  \/ (m = 3 /\ DaysBeforeMonth y m = 90 + leap /\ DaysInMonth y m = 30)
  \/ (m = 4 /\ DaysBeforeMonth y m = 120 + leap /\ DaysInMonth y m = 31)
  \/ (m = 5 /\ DaysBeforeMonth y m = 151 + leap /\ DaysInMonth y m = 30)
  \/ (m = 6 /\ DaysBeforeMonth y m = 181 + leap /\ DaysInMonth y m = 31)
  \/ (m = 7 /\ DaysBeforeMonth y m = 212 + leap /\ DaysInMonth y m = 31)
  \/ (m = 8 /\ DaysBeforeMonth y m = 243 + leap /\ DaysInMonth y m = 30)
  \/ (m = 9 /\ DaysBeforeMonth y m = 273 + leap /\ DaysInMonth y m = 31)
  \/ (m = 10 /\ DaysBeforeMonth y m = 304 + leap /\ DaysInMonth y m = 30)
  \/ (m = 11 /\ DaysBeforeMonth y m = 334 + leap /\ DaysInMonth y m = 31).
Proof.
  intros Hm leap.
  assert (Hc : m = 0 \/ m = 1 \/ m = 2 \/ m = 3 \/ m = 4 \/ m = 5 \/ m = 6
               \/ m = 7 \/ m = 8 \/ m = 9 \/ m = 10 \/ m = 11) by lia.
  repeat (destruct Hc as [->|Hc]; [pick_disjunct|]).
  subst m. pick_disjunct.
Qed.

Lemma DaysBeforeMonth_range (y m d : Z) :
  0 <= m <= 11 -> 1 <= d <= DaysInMonth y m ->
  0 <= DaysBeforeMonth y m + d - 1 < DaysInYear y.
Proof.
  intros Hm Hd. pose proof (month_table y m Hm) as Ht. cbv zeta in Ht.
  destruct (leap_cases y) as [[Hy Hl]|[Hy Hl]]; rewrite Hl in Ht; rewrite Hy;
    repeat (destruct Ht as [(-> & Hb & Hn)|Ht]; [rewrite Hb; lia|]);
    destruct Ht as (-> & Hb & Hn); rewrite Hb; lia.
Qed.

(** The getters read back the calendar date a time value was made from. *)
Theorem civil_roundtrip (y m d : Z) :
  0 <= m <= 11 -> 1 <= d <= DaysInMonth y m ->
  let t := MakeDate (MakeDay y m d) 0 in
  YearFromTime t = y /\ MonthFromTime t = m /\ DateFromTime t = d.
Proof.
  intros Hm Hd t.
  pose proof (DaysBeforeMonth_range y m d Hm Hd) as Hr.
  assert (Hday : Day t = DayFromYear y + DaysBeforeMonth y m + d - 1)
    by apply Day_MakeDate.
  assert (Hy : YearFromTime t = y).
  { apply YearFromTime_unique. rewrite Hday, DayFromYear_succ. lia. }
  assert (Hw : DayWithinYear t = DaysBeforeMonth y m + d - 1)
    by (unfold DayWithinYear; rewrite Hy, Hday; lia).
  pose proof (month_table y m Hm) as Ht. cbv zeta in Ht.
  assert (Hmonth : MonthFromTime t = m).
  { unfold MonthFromTime, InLeapYear. rewrite Hw, Hy. cbv zeta.
    destruct (leap_cases y) as [[Hl1 Hl]|[Hl1 Hl]]; rewrite Hl in *;
      repeat (destruct Ht as [(-> & Hb & Hn)|Ht];
              [rewrite Hb in *;
               repeat match goal with
                      | |- context [?a <? ?b] =>
                          destruct (Z.ltb_spec a b); try lia
                      end|]);
      destruct Ht as (-> & Hb & Hn); rewrite Hb in *;
      repeat match goal with
             | |- context [?a <? ?b] => destruct (Z.ltb_spec a b); try lia
             end. }
  split; [exact Hy|]. split; [exact Hmonth|].
  unfold DateFromTime, InLeapYear. rewrite Hmonth, Hw, Hy. cbv zeta.
  destruct (leap_cases y) as [[Hl1 Hl]|[Hl1 Hl]]; rewrite Hl in *;
    repeat (destruct Ht as [(-> & Hb & Hn)|Ht]; [rewrite Hb; lia|]);
    destruct Ht as (-> & Hb & Hn); rewrite Hb; lia.
Qed.

(** The local day of a UTC midnight is that day, or the day before on a
    host west of UTC. *)
Lemma Day_LocalTime_midnight (tza : Z -> Z) (d : Z) :
  tza_bounded tza ->
  Day (LocalTime tza (MakeDate d 0)) = d
  \/ Day (LocalTime tza (MakeDate d 0)) = d - 1.
Proof.
  intros Hb. unfold LocalTime, Day.
  specialize (Hb (MakeDate d 0)).
  set (o := tza (MakeDate d 0)) in *.
  unfold MakeDate, msPerDay in *. rewrite Z.add_0_r.
  destruct (Z_le_gt_dec 0 o) as [Hpos|Hneg].
  - left. symmetry. apply (Z.div_unique _ _ d o); lia.
  - right. symmetry. apply (Z.div_unique _ _ (d - 1) (o + 86400000)); lia.
Qed.

Lemma tx_month_key_cases (tza : Z -> Z) (t : Transaction) (d : Z) :
  tza_bounded tza ->
  new_Date (transaction_date t) = Some (MakeDate d 0) ->
  tx_month_key tza t = KIndex (Z.to_N (MonthFromTime (MakeDate d 0) + 1))
  \/ tx_month_key tza t
     = KIndex (Z.to_N (MonthFromTime (MakeDate (d - 1) 0) + 1)).
Proof.
  intros Hb Hd. unfold tx_month_key, month_number, getMonth.
  rewrite Hd. cbn [option_map month_key].
  destruct (Day_LocalTime_midnight tza d Hb) as [H|H]; [left|right].
  - rewrite <- (Day_MakeDate d) in H at 2.
    rewrite (MonthFromTime_Day _ _ H). reflexivity.
  - rewrite <- (Day_MakeDate (d - 1)) in H.
    rewrite (MonthFromTime_Day _ _ H). reflexivity.
Qed.

Lemma month_counts_ext (tza tza' : Z -> Z) (txs : list Transaction) :
  Forall (fun t => tx_month_key tza t = tx_month_key tza' t) txs ->
  month_counts tza txs = month_counts tza' txs.
Proof.
  intros H. unfold month_counts. generalize (@nil (prop_key * nat)).
  induction H as [|t txs Ht _ IH]; intros o; simpl; [reflexivity|].
  rewrite IH. unfold count_month. rewrite Ht. reflexivity.
Qed.

(** ** C2: the sample data *)

(** On every host the five sample records are counted under the months
    they are counted under in UTC, or under those of a host west of UTC
    (only the record of 1 January changes month there). *)
Lemma sample_month_counts (tza : Z -> Z) :
  tza_bounded tza ->
  month_counts tza transactions = month_counts tza_utc transactions
  \/ month_counts tza transactions = month_counts tza_minus5 transactions.
Proof.
  intros Hb. unfold transactions.
  match goal with |- context [month_counts tza [?a; ?b; ?c; ?d; ?e]] =>
    assert (H1 : tx_month_key tza a = KIndex 1 \/ tx_month_key tza a = KIndex 12)
      by exact (tx_month_key_cases tza a 17897 Hb eq_refl);
    assert (H2 : tx_month_key tza b = KIndex 1 \/ tx_month_key tza b = KIndex 1)
      by exact (tx_month_key_cases tza b 17901 Hb eq_refl);
    assert (H3 : tx_month_key tza c = KIndex 2 \/ tx_month_key tza c = KIndex 2)
      by exact (tx_month_key_cases tza c 17937 Hb eq_refl);
    assert (H4 : tx_month_key tza d = KIndex 2 \/ tx_month_key tza d = KIndex 2)
      by exact (tx_month_key_cases tza d 17942 Hb eq_refl);
    assert (H5 : tx_month_key tza e = KIndex 3 \/ tx_month_key tza e = KIndex 3)
      by exact (tx_month_key_cases tza e 17975 Hb eq_refl)
  end.
  assert (H2' := or_ind (fun x => x) (fun x => x) H2).
  assert (H3' := or_ind (fun x => x) (fun x => x) H3).
  assert (H4' := or_ind (fun x => x) (fun x => x) H4).
  assert (H5' := or_ind (fun x => x) (fun x => x) H5).
  destruct H1 as [H1|H1]; [left|right]; apply month_counts_ext;
    repeat (apply Forall_cons;
            [first [rewrite H1|rewrite H2'|rewrite H3'|rewrite H4'|rewrite H5'];
             reflexivity|]);
    apply Forall_nil.
Qed.

(** C2. On the five sample records the total is 580, the debit total 430,
    the average 116, the dominant type "debit", and the month with most
    transactions is month 2 (returned as the property key "2"), on every
    host. *)
Theorem C2_sample_values (tza : Z -> Z) :
  tza_bounded tza ->
  calculateTotalAmount transactions = 580.0%float
  /\ calculateTotalDebitAmount transactions = 430.0%float
  /\ calculateAverageTransactionAmount transactions = 116.0%float
  /\ mostTransactionTypes transactions = "debit"
  /\ findMostTransactionsMonth tza transactions = JString "2".
Proof.
  intros Hb.
  split; [vm_compute; reflexivity|].
  split; [vm_compute; reflexivity|].
  split; [vm_compute; reflexivity|].
  split; [vm_compute; reflexivity|].
  change (findMostTransactionsMonth tza transactions)
    with (reduce_keys (pick_key (month_counts tza transactions))
            (obj_keys (month_counts tza transactions))).
  destruct (sample_month_counts tza Hb) as [-> | ->]; vm_compute; reflexivity.
Qed.

Lemma C2_sample_values_witness :
  tza_bounded tza_minus5
  /\ findMostTransactionsMonth tza_minus5 transactions = JString "2".
Proof.
  assert (Hb : tza_bounded tza_minus5)
    by (intros t; unfold tza_minus5, msPerDay; lia).
  split; [exact Hb|].
  apply (C2_sample_values tza_minus5 Hb).
Defined.

(** ** C1: the month with most transactions *)

Example tie_sample_counts :
  month_counts tza_utc tie_sample = [(KIndex 1, 1%nat); (KIndex 3, 1%nat)].
Proof. vm_compute. reflexivity. Qed.

(** C1, as stated, fails: with one record in January and one in March the
    months are tied, January is the tied key met first (in the object's key
    order and in the order of the records alike), and the function returns
    "3". *)
Lemma C1_first_tied_counterexample :
  let counts := month_counts tza_utc tie_sample in
  count_of counts (KIndex 1) = count_of counts (KIndex 3)
  /\ count_of counts (KIndex 1) = highest_count counts
  /\ first_tied_key counts (obj_keys counts) = Some (KIndex 1)
  /\ first_tied_key counts (map (tx_month_key tza_utc) tie_sample)
     = Some (KIndex 1)
  /\ findMostTransactionsMonth tza_utc tie_sample = JString "3"
  /\ findMostTransactionsMonth tza_utc tie_sample
     <> JString (key_to_string (KIndex 1)).
Proof. vm_compute. repeat split; try reflexivity. discriminate. Qed.

Lemma key_eqb_spec (a b : prop_key) : reflect (a = b) (key_eqb a b).
Proof.
  destruct a as [m|s], b as [n|r]; simpl; try (constructor; discriminate).
  - destruct (N.eqb_spec m n); constructor; congruence.
  - destruct (String.eqb_spec s r); constructor; congruence.
Qed.

Lemma key_eqb_refl (a : prop_key) : key_eqb a a = true.
Proof. destruct (key_eqb_spec a a); congruence. Qed.

Lemma key_before_precedes (a b : prop_key) :
  key_before a b = true -> key_precedes a b.
Proof.
  destruct a, b; simpl; try discriminate; auto.
  apply N.ltb_lt.
Qed.

Lemma key_not_before_precedes (a b : prop_key) :
  a <> b -> key_before a b = false -> key_precedes b a.
Proof.
  destruct a as [m|s], b as [n|r]; simpl; intros Hne Hlt;
    try discriminate; try congruence; auto.
  apply N.ltb_ge in Hlt. assert (m <> n) by congruence. lia.
Qed.

Section ObjectFacts.
Implicit Types (o : js_object) (k : prop_key) (v : nat).

Lemma obj_get_set o k v k' :
  obj_get (obj_set o k v) k' = if key_eqb k' k then Some v else obj_get o k'.
Proof.
  induction o as [|[k0 v0] o IH]; simpl.
  - destruct (key_eqb k' k); reflexivity.
  - destruct (key_eqb_spec k k0) as [->|Hne]; simpl.
    + destruct (key_eqb k' k0); reflexivity.
    + destruct (key_before k k0); simpl.
      * destruct (key_eqb k' k); reflexivity.
      * rewrite IH. destruct (key_eqb_spec k' k0) as [->|]; [|reflexivity].
        destruct (key_eqb_spec k0 k); congruence.
Qed.

Lemma obj_get_In o k : obj_get o k <> None <-> In k (obj_keys o).
Proof.
  induction o as [|[k0 v0] o IH]; simpl; [tauto|].
  destruct (key_eqb_spec k k0) as [->|Hne].
  - split; [auto | discriminate].
  - rewrite IH. split; [auto|]. intros [H|H]; congruence.
Qed.

Lemma obj_keys_set o k v k' :
  In k' (obj_keys (obj_set o k v)) <-> k' = k \/ In k' (obj_keys o).
Proof.
  rewrite <- !obj_get_In, obj_get_set.
  destruct (key_eqb_spec k' k) as [->|Hne].
  - split; [auto | discriminate].
  - split; [auto|]. intros [H|H]; congruence.
Qed.

Lemma obj_set_ordered o k v : keys_ordered o -> keys_ordered (obj_set o k v).
Proof.
  unfold keys_ordered.
  induction o as [|[k0 v0] o IH]; simpl; intros Hs.
  - repeat constructor.
  - apply StronglySorted_inv in Hs. destruct Hs as [Hs Hall].
    destruct (key_eqb_spec k k0) as [->|Hne]; simpl.
    + constructor; assumption.
    + destruct (key_before k k0) eqn:Hb; simpl.
      * pose proof (key_before_precedes _ _ Hb) as Hp.
        constructor; [constructor; assumption|].
        constructor; [exact Hp|].
        eapply Forall_impl; [|exact Hall].
        intros c Hc.
        destruct k, k0, c; simpl in *; try discriminate; try tauto; lia.
      * constructor; [apply IH; exact Hs|].
        apply Forall_forall. intros c Hc.
        apply obj_keys_set in Hc. destruct Hc as [->|Hc].
        -- apply key_not_before_precedes; assumption.
        -- rewrite Forall_forall in Hall. apply Hall, Hc.
Qed.
End ObjectFacts.

Lemma month_counts_snoc (tza : Z -> Z) (txs : list Transaction) (t : Transaction) :
  month_counts tza (txs ++ [t]) = count_month tza (month_counts tza txs) t.
Proof. unfold month_counts. rewrite fold_left_app. reflexivity. Qed.

Lemma month_count_snoc (tza : Z -> Z) (txs : list Transaction)
  (t : Transaction) (k : prop_key) :
  month_count tza (txs ++ [t]) k
  = (month_count tza txs k
     + if key_eqb (tx_month_key tza t) k then 1 else 0)%nat.
Proof.
  unfold month_count. rewrite filter_app, length_app. simpl.
  destruct (key_eqb _ k); reflexivity.
Qed.

(** The counter object after the loop: its keys are in key order, and
    under each key it holds the number of records counted there (keys
    with no record are absent). *)
Lemma month_counts_spec (tza : Z -> Z) (txs : list Transaction) :
  keys_ordered (month_counts tza txs)
  /\ forall k,
       obj_get (month_counts tza txs) k
       = if Nat.eqb (month_count tza txs k) 0 then None
         else Some (month_count tza txs k).
Proof.
  induction txs as [|t txs [IHo IHg]] using rev_ind.
  - split; [constructor | reflexivity].
  - rewrite month_counts_snoc. unfold count_month. split.
    + apply obj_set_ordered, IHo.
    + intros k. rewrite obj_get_set, month_count_snoc.
      destruct (key_eqb_spec k (tx_month_key tza t)) as [->|Hne].
      * rewrite key_eqb_refl, IHg.
        destruct (Nat.eqb_spec (month_count tza txs (tx_month_key tza t)) 0)
          as [->|Hpos]; simpl; [reflexivity|].
        destruct (Nat.eqb_spec
                    (month_count tza txs (tx_month_key tza t) + 1) 0);
          [lia | reflexivity].
      * destruct (key_eqb_spec (tx_month_key tza t) k); [congruence|].
        rewrite Nat.add_0_r. apply IHg.
Qed.

Lemma count_of_month_counts (tza : Z -> Z) (txs : list Transaction) (k : prop_key) :
  count_of (month_counts tza txs) k = month_count tza txs k.
Proof.
  unfold count_of. rewrite (proj2 (month_counts_spec tza txs)).
  destruct (Nat.eqb_spec (month_count tza txs k) 0); congruence.
Qed.

Lemma month_counts_keys (tza : Z -> Z) (txs : list Transaction) (k : prop_key) :
  In k (obj_keys (month_counts tza txs)) <-> (0 < month_count tza txs k)%nat.
Proof.
  rewrite <- obj_get_In, (proj2 (month_counts_spec tza txs)).
  destruct (Nat.eqb_spec (month_count tza txs k) 0); split;
    try congruence; try discriminate; lia.
Qed.

Lemma month_count_pos (tza : Z -> Z) (txs : list Transaction) (k : prop_key) :
  (0 < month_count tza txs k)%nat
  <-> exists t, In t txs /\ tx_month_key tza t = k.
Proof.
  unfold month_count. split.
  - destruct (filter _ txs) as [|t l] eqn:Hf; simpl; [lia|]. intros _.
    assert (Hin : In t (filter (fun t => key_eqb (tx_month_key tza t) k) txs))
      by (rewrite Hf; left; reflexivity).
    apply filter_In in Hin. destruct Hin as [Hin Hk].
    exists t. split; [exact Hin|].
    destruct (key_eqb_spec (tx_month_key tza t) k); congruence.
  - intros (t & Hin & Hk).
    assert (Hf : In t (filter (fun t => key_eqb (tx_month_key tza t) k) txs)).
    { apply filter_In. split; [exact Hin|]. rewrite Hk. apply key_eqb_refl. }
    destruct (filter _ txs); [destruct Hf | simpl; lia].
Qed.

(** The reduction keeps the last of the keys with the highest count: every
    key before the result has at most its count, every key after it has
    less. *)
Lemma reduce_last_highest (counts : js_object) (ks pre post : list prop_key)
  (a : prop_key) :
  Forall (fun k => obj_get counts k <> None) (a :: ks) ->
  Forall (fun k => (count_of counts k <= count_of counts a)%nat) pre ->
  Forall (fun k => (count_of counts k < count_of counts a)%nat) post ->
  let r := fold_left (pick_key counts) ks a in
  exists l1 l2,
    pre ++ a :: post ++ ks = l1 ++ r :: l2
    /\ Forall (fun k => (count_of counts k <= count_of counts r)%nat) l1
    /\ Forall (fun k => (count_of counts k < count_of counts r)%nat) l2.
Proof.
  revert pre post a.
  induction ks as [|b ks IH]; intros pre post a Hin Hpre Hpost; simpl.
  - exists pre, post. rewrite app_nil_r. auto.
  - inversion Hin as [|? ? Ha Hks]; subst.
    inversion Hks as [|? ? Hb Hks']; subst.
    assert (Hpick : pick_key counts a b
                    = if Nat.ltb (count_of counts b) (count_of counts a)
                      then a else b).
    { unfold pick_key, count_gt, count_of.
      destruct (obj_get counts a); [|congruence].
      destruct (obj_get counts b); [|congruence]. reflexivity. }
    rewrite Hpick.
    destruct (Nat.ltb_spec (count_of counts b) (count_of counts a)) as [Hlt|Hge].
    + destruct (IH pre (post ++ [b]) a) as (l1 & l2 & Heq & H1 & H2).
      * constructor; assumption.
      * exact Hpre.
      * apply Forall_app. split; [exact Hpost | repeat constructor; exact Hlt].
      * exists l1, l2. rewrite <- app_assoc in Heq. simpl in Heq. auto.
    + destruct (IH (pre ++ a :: post) [] b) as (l1 & l2 & Heq & H1 & H2).
      * exact Hks.
      * apply Forall_app. split.
        -- eapply Forall_impl; [|exact Hpre]. simpl. intros; lia.
        -- constructor; [exact Hge|].
           eapply Forall_impl; [|exact Hpost]. simpl. intros; lia.
      * constructor.
      * exists l1, l2. rewrite <- app_assoc in Heq. simpl in Heq. auto.
Qed.

Lemma StronglySorted_before {A : Type} (R : A -> A -> Prop)
  (l1 l2 : list A) (x : A) :
  StronglySorted R (l1 ++ x :: l2) -> Forall (fun y => R y x) l1.
Proof.
  induction l1 as [|y l1 IH]; simpl; intros Hs; [constructor|].
  apply StronglySorted_inv in Hs. destruct Hs as [Hs Hall].
  constructor; [|apply IH, Hs].
  rewrite Forall_forall in Hall. apply Hall, in_elt.
Qed.

(** Between the keys of two records, "is listed before" is [key_le]. *)
Lemma tx_month_key_le (tza : Z -> Z) (u t : Transaction) :
  tx_month_key tza u = tx_month_key tza t
  \/ key_precedes (tx_month_key tza u) (tx_month_key tza t) ->
  key_le (tx_month_key tza u) (tx_month_key tza t).
Proof.
  unfold tx_month_key, month_key.
  destruct (month_number tza (new_Date (transaction_date u))),
           (month_number tza (new_Date (transaction_date t)));
    simpl; intros [H|H]; try congruence; try tauto; try lia.
  injection H as H. lia.
Qed.

(** ** C4: debit total and total

    [+] on binary64 numbers rounds; the order between the two sums rests on
    rounding being monotone, which is proved here from the kernel's
    specification of binary64 addition. *)

(** *** Round-to-nearest-even on integers *)

Lemma rshift_nonneg n : 0 <= rshift n.
Proof. unfold rshift. lia. Qed.

Lemma round_up_range q r k : 0 <= round_up q r k <= 1.
Proof. unfold round_up. destruct (_ || _); lia. Qed.

Lemma rn_bounds n :
  0 < n -> 2 ^ Z.log2 n <= rn n <= 2 ^ (Z.log2 n + 1).
Proof.
  intros Hn. unfold rn, round_mant.
  set (k := rshift n).
  assert (Hk : 0 <= k <= Z.log2 n).
  { unfold k, rshift. pose proof (Z.log2_nonneg n). lia. }
  pose proof (Z.log2_spec n Hn) as [Hlo Hhi].
  pose proof (round_up_range (n / 2 ^ k) (n mod 2 ^ k) k) as Hup.
  assert (Hp : 0 < 2 ^ k) by (apply Z.pow_pos_nonneg; lia).
  pose proof (Z.div_mod n (2 ^ k) ltac:(lia)) as Hdm.
  pose proof (Z.mod_pos_bound n (2 ^ k) Hp) as Hm.
  set (q := n / 2 ^ k) in *. set (r := n mod 2 ^ k) in *.
  replace (2 ^ Z.log2 n) with (2 ^ (Z.log2 n - k) * 2 ^ k) in *
    by (rewrite <- Z.pow_add_r by lia; f_equal; lia).
  replace (2 ^ (Z.log2 n + 1)) with (2 ^ (Z.log2 n + 1 - k) * 2 ^ k)
    by (rewrite <- Z.pow_add_r by lia; f_equal; lia).
  replace (2 ^ Z.succ (Z.log2 n)) with (2 ^ (Z.log2 n + 1 - k) * 2 ^ k) in Hhi
    by (rewrite <- Z.pow_add_r by lia; f_equal; lia).
  set (a := 2 ^ (Z.log2 n - k)) in *. set (b := 2 ^ (Z.log2 n + 1 - k)) in *.
  assert (a <= q) by nia.
  assert (q + 1 <= b) by nia.
  split; apply Z.mul_le_mono_nonneg_r; lia.
Qed.

Lemma round_up_mono q r1 r2 k : r1 <= r2 -> round_up q r1 k <= round_up q r2 k.
Proof.
  intros Hr. unfold round_up.
  destruct (Z.ltb_spec (2 ^ k) (2 * r1)), (Z.ltb_spec (2 ^ k) (2 * r2)),
    (Z.eqb_spec (2 ^ k) (2 * r1)), (Z.eqb_spec (2 ^ k) (2 * r2)),
    (Z.odd q); simpl; lia.
Qed.

Lemma rn_mono n1 n2 : 0 <= n1 <= n2 -> rn n1 <= rn n2.
Proof.
  intros [H0 Hle].
  destruct (Z.eq_dec n1 0) as [->|Hn1].
  { destruct (Z.eq_dec n2 0) as [->|Hn2]; [lia|].
    pose proof (rn_bounds n2 ltac:(lia)).
    assert (0 < 2 ^ Z.log2 n2) by (apply Z.pow_pos_nonneg; [lia|apply Z.log2_nonneg]).
    change (rn 0) with 0. lia. }
  assert (Hp1 : 0 < n1) by lia. assert (Hp2 : 0 < n2) by lia.
  pose proof (Z.log2_le_mono n1 n2 Hle) as Hlog.
  destruct (Z.eq_dec (Z.log2 n1) (Z.log2 n2)) as [Heq|Hne].
  - unfold rn, round_mant, rshift. rewrite Heq.
    set (k := Z.max (Z.log2 n2 + 1 - 53) 0).
    assert (Hk : 0 <= k) by (unfold k; lia).
    assert (Hp : 0 < 2 ^ k) by (apply Z.pow_pos_nonneg; lia).
    apply Z.mul_le_mono_nonneg_r; [lia|].
    pose proof (Z.div_mod n1 (2 ^ k) ltac:(lia)) as Hdm1.
    pose proof (Z.div_mod n2 (2 ^ k) ltac:(lia)) as Hdm2.
    pose proof (Z.mod_pos_bound n1 (2 ^ k) Hp) as Hm1.
    pose proof (Z.mod_pos_bound n2 (2 ^ k) Hp) as Hm2.
    pose proof (Z.div_le_mono n1 n2 (2 ^ k) Hp Hle) as Hq.
    set (q1 := n1 / 2 ^ k) in *. set (q2 := n2 / 2 ^ k) in *.
    set (r1 := n1 mod 2 ^ k) in *. set (r2 := n2 mod 2 ^ k) in *.
    destruct (Z.eq_dec q1 q2) as [Hqq|Hqq].
    + rewrite Hqq in *. assert (r1 <= r2) by lia.
      pose proof (round_up_mono q2 r1 r2 k ltac:(lia)). lia.
    + pose proof (round_up_range q1 r1 k). pose proof (round_up_range q2 r2 k).
      lia.
  - pose proof (rn_bounds n1 Hp1) as [_ Hu].
    pose proof (rn_bounds n2 Hp2) as [Hl _].
    assert (2 ^ (Z.log2 n1 + 1) <= 2 ^ Z.log2 n2)
      by (apply Z.pow_le_mono_r; lia).
    lia.
Qed.

Lemma rnd_mono n1 n2 : 0 <= n1 <= n2 -> rnd n1 <= rnd n2.
Proof. intros H. unfold rnd. pose proof (rn_mono n1 n2 H). lia. Qed.

(** *** The kernel's specification of binary64 rounding *)

Lemma digits2_pos_log2 (p : positive) :
  Zpos (digits2_pos p) = Z.log2 (Zpos p) + 1.
Proof.
  induction p as [p IH|p IH|]; simpl; try reflexivity;
    rewrite Pos2Z.inj_succ; destruct p; simpl in *; lia.
Qed.

Lemma iter_pos_nat {A : Type} (f : A -> A) (p : positive) (x : A) :
  iter_pos f p x = Nat.iter (Pos.to_nat p) f x.
Proof.
  revert x. induction p as [p IH|p IH|]; intros x; cbn [iter_pos].
  - rewrite !IH, Pos2Nat.inj_xI.
    replace (S (2 * Pos.to_nat p)) with (Pos.to_nat p + S (Pos.to_nat p))%nat
      by lia.
    rewrite Nat.iter_add, Nat.iter_succ_r. reflexivity.
  - rewrite !IH, Pos2Nat.inj_xO.
    replace (2 * Pos.to_nat p)%nat with (Pos.to_nat p + Pos.to_nat p)%nat
      by lia.
    rewrite Nat.iter_add. reflexivity.
  - reflexivity.
Qed.

Lemma shr_1_spec (m : Z) (r s : bool) :
  0 <= m ->
  shr_1 (Build_shr_record m r s)
  = Build_shr_record (m / 2) (Z.odd m) (r || s).
Proof.
  intros Hm. destruct m as [|p|p]; [reflexivity| |lia].
  destruct p as [p|p|]; [| |reflexivity].
  - assert (H : Z.pos p~1 / 2 = Z.pos p)
      by (symmetry; apply (Z.div_unique _ _ _ 1); lia).
    rewrite H. reflexivity.
  - assert (H : Z.pos p~0 / 2 = Z.pos p)
      by (symmetry; apply (Z.div_unique _ _ _ 0); lia).
    rewrite H. reflexivity.
Qed.

(** The record after [S j] one-bit shifts of [m]: the quotient, the last
    bit shifted out, and whether any earlier bit shifted out was set. *)
Lemma shr_iter_spec (m : Z) (j : nat) :
  0 <= m ->
  Nat.iter (S j) shr_1 (Build_shr_record m false false)
  = Build_shr_record (m / 2 ^ Z.of_nat (S j))
      (Z.odd (m / 2 ^ Z.of_nat j))
      (negb (m mod 2 ^ Z.of_nat j =? 0)).
Proof.
  intros Hm. induction j as [|j IH].
  - change (Nat.iter 1 shr_1 ?x) with (shr_1 x).
    rewrite shr_1_spec by exact Hm.
    change (2 ^ Z.of_nat 1) with 2. change (2 ^ Z.of_nat 0) with 1.
    rewrite Z.div_1_r, Z.mod_1_r. reflexivity.
  - change (Nat.iter (S (S j)) shr_1 ?x) with (shr_1 (Nat.iter (S j) shr_1 x)).
    rewrite IH.
    assert (Hp : 0 < 2 ^ Z.of_nat j) by (apply Z.pow_pos_nonneg; lia).
    rewrite shr_1_spec by (apply Z.div_pos; [lia | apply Z.pow_pos_nonneg; lia]).
    rewrite !Nat2Z.inj_succ, !Z.pow_succ_r by lia.
    f_equal.
    + rewrite Z.div_div by lia. f_equal. lia.
    + rewrite (Z.mul_comm 2), Z.rem_mul_r by lia.
      pose proof (Z.mod_pos_bound m (2 ^ Z.of_nat j) Hp).
      rewrite (Zmod_odd (m / 2 ^ Z.of_nat j)).
      destruct (Z.odd (m / 2 ^ Z.of_nat j));
        destruct (Z.eqb_spec (m mod 2 ^ Z.of_nat j) 0);
        simpl; symmetry; try (apply Z.eqb_neq); try (apply Z.eqb_eq); lia.
Qed.

Lemma fexp_eq (x : Z) : fexp prec emax x = Z.max (x - 53) (-1074).
Proof. reflexivity. Qed.

Lemma shr_exact_spec (m e j : Z) :
  0 <= m ->
  shr (Build_shr_record m false false) e j
  = if j <=? 0 then (Build_shr_record m false false, e)
    else (Build_shr_record (m / 2 ^ j) (Z.odd (m / 2 ^ (j - 1)))
            (negb (m mod 2 ^ (j - 1) =? 0)), e + j).
Proof.
  intros Hm. destruct j as [|p|p]; try reflexivity.
  unfold shr. rewrite iter_pos_nat.
  destruct (Pos2Nat.is_succ p) as [j Hj]. rewrite Hj.
  rewrite shr_iter_spec by exact Hm.
  assert (Hp : Z.of_nat (S j) = Z.pos p) by (rewrite <- Hj; apply positive_nat_Z).
  replace (Z.of_nat j) with (Z.pos p - 1) by lia. rewrite Hp.
  reflexivity.
Qed.

Lemma shr_fexp_exact (m e : Z) :
  0 < m ->
  shr_fexp prec emax m e loc_Exact
  = shr (Build_shr_record m false false) e
      (Z.max (Z.log2 m + 1 + e - 53) (-1074) - e).
Proof.
  intros Hm. unfold shr_fexp. rewrite fexp_eq.
  destruct m as [|p|p]; try lia.
  unfold Zdigits2. rewrite digits2_pos_log2. reflexivity.
Qed.

Lemma round_record_spec (m j : Z) :
  0 <= m -> 0 < j ->
  round_nearest_even (m / 2 ^ j)
    (loc_of_shr_record
       (Build_shr_record (m / 2 ^ j) (Z.odd (m / 2 ^ (j - 1)))
          (negb (m mod 2 ^ (j - 1) =? 0))))
  = round_mant m j.
Proof.
  intros Hm Hj. unfold round_mant, round_up.
  set (h := 2 ^ (j - 1)).
  assert (Hh : 0 < h) by (apply Z.pow_pos_nonneg; lia).
  assert (H2 : 2 ^ j = h * 2).
  { unfold h. replace j with (Z.succ (j - 1)) at 1 by lia.
    rewrite Z.pow_succ_r by lia. lia. }
  rewrite H2, Z.rem_mul_r by lia.
  pose proof (Z.mod_pos_bound m h Hh) as Hlo.
  rewrite (Zmod_odd (m / h)).
  set (q := m / (h * 2)).
  destruct (Z.odd (m / h)); destruct (Z.eqb_spec (m mod h) 0) as [H0|H0];
    simpl negb; cbv iota beta.
  - (* half way *)
    unfold loc_of_shr_record, round_nearest_even.
    destruct (Z.ltb_spec (h * 2) (2 * (m mod h + h * 1))); [lia|].
    destruct (Z.eqb_spec (h * 2) (2 * (m mod h + h * 1))); [|lia].
    simpl. rewrite <- Z.negb_odd. destruct (Z.odd q); simpl; lia.
  - unfold loc_of_shr_record, round_nearest_even.
    destruct (Z.ltb_spec (h * 2) (2 * (m mod h + h * 1))); [|lia].
    simpl. lia.
  - unfold loc_of_shr_record, round_nearest_even.
    destruct (Z.ltb_spec (h * 2) (2 * (m mod h + h * 0))); [lia|].
    destruct (Z.eqb_spec (h * 2) (2 * (m mod h + h * 0))); [lia|].
    simpl. lia.
  - unfold loc_of_shr_record, round_nearest_even.
    destruct (Z.ltb_spec (h * 2) (2 * (m mod h + h * 0))); [lia|].
    destruct (Z.eqb_spec (h * 2) (2 * (m mod h + h * 0))); [lia|].
    simpl. lia.
Qed.

Lemma log2_scaled (m a : Z) : 0 < m -> 0 <= a -> Z.log2 (m * 2 ^ a) = Z.log2 m + a.
Proof. intros Hm Ha. rewrite Z.log2_mul_pow2 by lia. lia. Qed.

Lemma rn_exact (m a : Z) :
  0 < m -> 0 <= a -> Z.log2 m <= 52 -> rn (m * 2 ^ a) = m * 2 ^ a.
Proof.
  intros Hm Ha Hlog. unfold rn, round_mant, rshift.
  rewrite log2_scaled by lia.
  set (k := Z.max (Z.log2 m + a + 1 - 53) 0).
  assert (Hk : 0 <= k <= a) by (unfold k; lia).
  assert (Hp : 0 < 2 ^ k) by (apply Z.pow_pos_nonneg; lia).
  replace (m * 2 ^ a) with (m * 2 ^ (a - k) * 2 ^ k)
    by (rewrite <- Z.mul_assoc, <- Z.pow_add_r by lia; do 2 f_equal; lia).
  rewrite Z.div_mul, Z.mod_mul by lia.
  unfold round_up.
  destruct (Z.ltb_spec (2 ^ k) (2 * 0)); [lia|].
  destruct (Z.eqb_spec (2 ^ k) (2 * 0)); [lia|]. simpl. lia.
Qed.

Lemma round_up_scaled (q r j a : Z) :
  0 <= a -> 0 <= j -> round_up q (r * 2 ^ a) (j + a) = round_up q r j.
Proof.
  intros Ha Hj. unfold round_up.
  assert (Hp : 0 < 2 ^ a) by (apply Z.pow_pos_nonneg; lia).
  rewrite Z.pow_add_r by lia.
  destruct (Z.ltb_spec (2 ^ j * 2 ^ a) (2 * (r * 2 ^ a))),
           (Z.ltb_spec (2 ^ j) (2 * r)),
           (Z.eqb_spec (2 ^ j * 2 ^ a) (2 * (r * 2 ^ a))),
           (Z.eqb_spec (2 ^ j) (2 * r)); try reflexivity; exfalso; nia.
Qed.

Lemma rn_rounded (m a : Z) :
  0 < m -> 0 <= a -> 52 < Z.log2 m ->
  rn (m * 2 ^ a)
  = round_mant m (Z.log2 m - 52) * 2 ^ (Z.log2 m - 52 + a).
Proof.
  intros Hm Ha Hlog. unfold rn, rshift.
  rewrite log2_scaled by lia.
  set (j := Z.log2 m - 52).
  replace (Z.max (Z.log2 m + a + 1 - 53) 0) with (j + a) by (unfold j; lia).
  f_equal. unfold round_mant.
  assert (Hpa : 0 < 2 ^ a) by (apply Z.pow_pos_nonneg; lia).
  assert (Hpj : 0 < 2 ^ j) by (apply Z.pow_pos_nonneg; unfold j; lia).
  rewrite Z.pow_add_r by (unfold j; lia).
  rewrite Z.div_mul_cancel_r by lia.
  rewrite Z.mul_mod_distr_r by lia.
  rewrite round_up_scaled by (unfold j; lia). reflexivity.
Qed.

Lemma inf_value_split : inf_value = 2 ^ 52 * 2 ^ 2046.
Proof. unfold inf_value. rewrite <- Z.pow_add_r by lia. reflexivity. Qed.

(** A normalized mantissa and exponent, and the overflow test. *)
Lemma finish_spec (m : positive) (e : Z) :
  -1074 <= e ->
  Z.log2 (Zpos m) <= 52 ->
  (-1074 < e -> Z.log2 (Zpos m) = 52) ->
  let r := if e <=? emax - prec
           then S754_finite false m e else S754_infinity false in
  SFnonneg r = true /\ SFvalue r = Z.min inf_value (Zpos m * 2 ^ (e + 1074)).
Proof.
  intros He Hlog Hnorm. change (emax - prec) with 971.
  pose proof (Z.log2_spec (Zpos m) ltac:(lia)) as [Hlo Hhi].
  destruct (Z.leb_spec e 971) as [Hle|Hgt]; cbv zeta; simpl SFnonneg;
    split; try reflexivity; simpl SFvalue.
  - assert (Zpos m < 2 ^ 53).
    { eapply Z.lt_le_trans; [exact Hhi|]. apply Z.pow_le_mono_r; lia. }
    assert (2 ^ (e + 1074) <= 2 ^ 2045) by (apply Z.pow_le_mono_r; lia).
    assert (0 < 2 ^ (e + 1074)) by (apply Z.pow_pos_nonneg; lia).
    assert (inf_value = 2 ^ 53 * 2 ^ 2045)
      by (unfold inf_value; rewrite <- Z.pow_add_r by lia; reflexivity).
    assert (Zpos m * 2 ^ (e + 1074) < 2 ^ 53 * 2 ^ (e + 1074))
      by (apply Z.mul_lt_mono_pos_r; lia).
    assert (2 ^ 53 * 2 ^ (e + 1074) <= 2 ^ 53 * 2 ^ 2045)
      by (apply Z.mul_le_mono_nonneg_l; lia).
    symmetry. apply Z.min_r. apply Z.lt_le_incl.
    eapply Z.lt_le_trans; [eassumption|]. congruence.
  - rewrite Hnorm in Hlo by lia.
    assert (2 ^ 2046 <= 2 ^ (e + 1074)) by (apply Z.pow_le_mono_r; lia).
    assert (0 < 2 ^ 2046) by (apply Z.pow_pos_nonneg; lia).
    assert (2 ^ 52 * 2 ^ 2046 <= Zpos m * 2 ^ (e + 1074)).
    { apply Z.mul_le_mono_nonneg; lia. }
    symmetry. apply Z.min_l. rewrite inf_value_split.
    eapply Z.le_trans; [|eassumption]. apply Z.le_refl.
Qed.

Lemma binary_round_aux_spec (m : positive) (e : Z) :
  -1074 <= e ->
  e <= Z.max (Z.log2 (Zpos m) + 1 + e - 53) (-1074) ->
  let r := binary_round_aux prec emax false (Zpos m) e loc_Exact in
  SFnonneg r = true /\ SFvalue r = rnd (Zpos m * 2 ^ (e + 1074)).
Proof.
  intros He Hn. unfold binary_round_aux, rnd.
  rewrite shr_fexp_exact, shr_exact_spec by lia.
  pose proof (Z.log2_spec (Zpos m) ltac:(lia)) as [Hlo Hhi].
  destruct (Z.leb_spec (Z.max (Z.log2 (Zpos m) + 1 + e - 53) (-1074) - e) 0)
    as [Hj|Hj].
  - cbv beta iota zeta delta [shr_m loc_of_shr_record round_nearest_even].
    rewrite shr_fexp_exact, shr_exact_spec by lia.
    destruct (Z.leb_spec (Z.max (Z.log2 (Zpos m) + 1 + e - 53) (-1074) - e) 0);
      [|lia].
    cbv beta iota zeta delta [shr_m].
    rewrite rn_exact by lia.
    apply finish_spec; lia.
  - set (j := Z.max (Z.log2 (Zpos m) + 1 + e - 53) (-1074) - e) in *.
    assert (Hjl : j = Z.log2 (Zpos m) - 52) by (unfold j in *; lia).
    cbv beta iota zeta delta [shr_m].
    rewrite round_record_spec by lia.
    rewrite rn_rounded by lia. rewrite <- Hjl.
    assert (Hpj : 0 < 2 ^ j) by (apply Z.pow_pos_nonneg; lia).
    assert (Hq : 2 ^ 52 <= Zpos m / 2 ^ j < 2 ^ 53).
    { split.
      - apply Z.div_le_lower_bound; [lia|].
        rewrite <- Z.pow_add_r by lia.
        replace (j + 52) with (Z.log2 (Zpos m)) by lia. exact Hlo.
      - apply Z.div_lt_upper_bound; [lia|].
        rewrite <- Z.pow_add_r by lia.
        replace (j + 53) with (Z.succ (Z.log2 (Zpos m))) by lia. exact Hhi. }
    pose proof (round_up_range (Zpos m / 2 ^ j) (Zpos m mod 2 ^ j) j) as Hup.
    assert (Hq' : 2 ^ 52 <= round_mant (Zpos m) j <= 2 ^ 53)
      by (unfold round_mant; lia).
    set (q' := round_mant (Zpos m) j) in *.
    rewrite shr_fexp_exact, shr_exact_spec by lia.
    destruct (Z.eq_dec q' (2 ^ 53)) as [Heq|Hne].
    + rewrite Heq. change (Z.log2 (2 ^ 53)) with 53.
      destruct (Z.leb_spec (Z.max (53 + 1 + (e + j) - 53) (-1074) - (e + j)) 0);
        [lia|].
      replace (Z.max (53 + 1 + (e + j) - 53) (-1074) - (e + j)) with 1 by lia.
      cbv beta iota zeta delta [shr_m].
      change (2 ^ 53 / 2 ^ 1) with (Zpos (2 ^ 52)).
      cbv beta iota.
      replace (2 ^ 53 * 2 ^ (j + (e + 1074)))
        with (Zpos (2 ^ 52) * 2 ^ (e + j + 1 + 1074)).
      * apply finish_spec; try lia; reflexivity.
      * replace (e + j + 1 + 1074) with (1 + (j + (e + 1074))) by lia.
        rewrite (Z.pow_add_r 2 1) by lia.
        generalize (2 ^ (j + (e + 1074))). intros x.
        change (Zpos (2 ^ 52)) with 4503599627370496.
        change (2 ^ 53) with 9007199254740992. change (2 ^ 1) with 2. lia.
    + assert (Hl : Z.log2 q' = 52).
      { apply Z.log2_unique; [lia|]. change (2 ^ (52 + 1)) with (2 ^ 53). lia. }
      rewrite Hl.
      destruct (Z.leb_spec (Z.max (52 + 1 + (e + j) - 53) (-1074) - (e + j)) 0);
        [|lia].
      cbv beta iota zeta delta [shr_m].
      destruct q' as [|p|p] eqn:Hp; try lia.
      cbv beta iota.
      replace (j + (e + 1074)) with (e + j + 1074) by lia.
      apply finish_spec; lia.
Qed.

Lemma shl_align_spec (m : positive) (e e' : Z) :
  (e' <= e ->
   snd (shl_align m e e') = e'
   /\ Zpos (fst (shl_align m e e')) = Zpos m * 2 ^ (e - e'))
  /\ (e <= e' -> shl_align m e e' = (m, e)).
Proof.
  unfold shl_align. destruct (e' - e) as [|d|d] eqn:Hd; cbn [fst snd].
  - split; intros H; [|reflexivity].
    replace (e - e') with 0 by lia. rewrite Z.pow_0_r. split; lia.
  - split; intros H; [lia | reflexivity].
  - split; intros H; [|lia]. split; [reflexivity|].
    change (Pos.iter xO m d) with (shift_pos d m).
    rewrite shift_pos_correct.
    replace (e - e') with (Zpos d) by lia.
    apply Z.mul_comm.
Qed.

Lemma binary_round_spec (m : positive) (e : Z) :
  -1074 <= e ->
  let r := binary_round prec emax false m e in
  SFnonneg r = true /\ SFvalue r = rnd (Zpos m * 2 ^ (e + 1074)).
Proof.
  intros He. unfold binary_round.
  rewrite fexp_eq, digits2_pos_log2.
  set (t := Z.max (Z.log2 (Zpos m) + 1 + e - 53) (-1074)).
  destruct (shl_align_spec m e t) as [Hshift Hkeep].
  destruct (Z_le_gt_dec e t) as [Hle|Hgt].
  - rewrite (Hkeep Hle). apply binary_round_aux_spec; [lia|]. fold t. lia.
  - destruct Hshift as [Hs Hf]; [lia|].
    destruct (shl_align m e t) as [mz ez]. cbn [fst snd] in Hs, Hf. subst ez.
    replace (Zpos m * 2 ^ (e + 1074)) with (Zpos mz * 2 ^ (t + 1074)).
    + apply binary_round_aux_spec; [unfold t; lia|].
      rewrite Hf, log2_scaled by lia. unfold t. lia.
    + rewrite Hf, <- Z.mul_assoc, <- Z.pow_add_r by (unfold t; lia).
      do 2 f_equal. lia.
Qed.

(** What [valid_binary] says of a finite number. *)
Lemma valid_finite (s : bool) (m : positive) (e : Z) :
  valid_binary (S754_finite s m e) = true ->
  -1074 <= e <= 971
  /\ Z.log2 (Zpos m) <= 52
  /\ (-1074 < e -> Z.log2 (Zpos m) = 52).
Proof.
  unfold SpecFloat.valid_binary, bounded, canonical_mantissa.
  rewrite fexp_eq, digits2_pos_log2. change (emax - prec) with 971.
  intros H. apply andb_true_iff in H. destruct H as [H1 H2].
  apply Z.eqb_eq in H1. apply Z.leb_le in H2. lia.
Qed.

Lemma SFvalue_finite_range (s : bool) (m : positive) (e : Z) :
  valid_binary (S754_finite s m e) = true ->
  0 < SFvalue (S754_finite s m e) < inf_value.
Proof.
  intros Hv. apply valid_finite in Hv. destruct Hv as (He & Hlog & Hnorm).
  unfold SFvalue.
  assert (0 < 2 ^ (e + 1074)) by (apply Z.pow_pos_nonneg; lia).
  split; [lia|].
  pose proof (Z.log2_spec (Zpos m) ltac:(lia)) as [_ Hhi].
  assert (Zpos m < 2 ^ 53).
  { eapply Z.lt_le_trans; [exact Hhi|]. apply Z.pow_le_mono_r; lia. }
  assert (Zpos m * 2 ^ (e + 1074) < 2 ^ 53 * 2 ^ (e + 1074))
    by (apply Z.mul_lt_mono_pos_r; lia).
  assert (2 ^ 53 * 2 ^ (e + 1074) <= 2 ^ 53 * 2 ^ 2045).
  { apply Z.mul_le_mono_nonneg_l; [lia|]. apply Z.pow_le_mono_r; lia. }
  assert (inf_value = 2 ^ 53 * 2 ^ 2045)
    by (unfold inf_value; rewrite <- Z.pow_add_r by lia; reflexivity).
  eapply Z.lt_le_trans; [eassumption|]. congruence.
Qed.

Lemma rnd_zero : rnd 0 = 0.
Proof. vm_compute. reflexivity. Qed.

Lemma rnd_inf_value : rnd inf_value = inf_value.
Proof. vm_compute. reflexivity. Qed.

Lemma rnd_le_inf_value (n : Z) : rnd n <= inf_value.
Proof. unfold rnd. lia. Qed.

Lemma rnd_above_inf_value (n : Z) : inf_value <= n -> rnd n = inf_value.
Proof.
  intros Hn. assert (0 < inf_value) by reflexivity.
  pose proof (rnd_mono inf_value n ltac:(lia)) as Hm. rewrite rnd_inf_value in Hm.
  pose proof (rnd_le_inf_value n). lia.
Qed.

Lemma SFvalue_range (x : spec_float) :
  valid_binary x = true -> 0 <= SFvalue x <= inf_value.
Proof.
  intros Hv. assert (0 < inf_value) by reflexivity.
  destruct x as [s| s | |s m e].
  - unfold SFvalue. lia.
  - unfold SFvalue. lia.
  - unfold SFvalue. lia.
  - pose proof (SFvalue_finite_range s m e Hv). lia.
Qed.

Lemma SFvalue_rnd (x : spec_float) :
  valid_binary x = true -> rnd (SFvalue x) = SFvalue x.
Proof.
  intros Hv. destruct x as [s| s | |s m e];
    [exact rnd_zero | exact rnd_inf_value | exact rnd_zero |].
  pose proof (SFvalue_finite_range s m e Hv) as Hr.
  apply valid_finite in Hv. destruct Hv as (He & Hlog & Hnorm).
  unfold rnd, SFvalue in *. rewrite rn_exact by lia. lia.
Qed.

Lemma SFadd_spec (x y : spec_float) :
  valid_binary x = true -> valid_binary y = true ->
  SFnonneg x = true -> SFnonneg y = true ->
  SFnonneg (SF64add x y) = true /\ SFvalue (SF64add x y) = rnd (SFvalue x + SFvalue y).
Proof.
  intros Hvx Hvy Hx Hy.
  pose proof (SFvalue_range x Hvx) as Hrx. pose proof (SFvalue_range y Hvy) as Hry.
  pose proof (SFvalue_rnd x Hvx) as Hfx. pose proof (SFvalue_rnd y Hvy) as Hfy.
  destruct x as [sx|sx| |sx mx ex], y as [sy|sy| |sy my ey];
    try discriminate Hx; try discriminate Hy.
  - (* zero, zero *)
    split; [destruct sx, sy; reflexivity|].
    unfold SFvalue. rewrite Z.add_0_r, rnd_zero. destruct sx, sy; reflexivity.
  - (* zero, infinity *)
    split; [exact Hy|]. unfold SF64add, SFadd, SFvalue.
    rewrite Z.add_0_l. symmetry. exact rnd_inf_value.
  - (* zero, finite *)
    split; [exact Hy|]. unfold SF64add, SFadd.
    change (SFvalue (S754_zero sx)) with 0. rewrite Z.add_0_l. symmetry. exact Hfy.
  - (* infinity, zero *)
    split; [exact Hx|]. unfold SF64add, SFadd, SFvalue.
    rewrite Z.add_0_r. symmetry. exact rnd_inf_value.
  - (* infinity, infinity *)
    destruct sx, sy; try discriminate Hx; try discriminate Hy.
    split; [reflexivity|]. unfold SF64add, SFadd.
    symmetry. apply rnd_above_inf_value.
    change (SFvalue (S754_infinity false)) with inf_value in *. lia.
  - (* infinity, finite *)
    split; [exact Hx|]. unfold SF64add, SFadd.
    symmetry. apply rnd_above_inf_value.
    change (SFvalue (S754_infinity sx)) with inf_value in *. lia.
  - (* finite, zero *)
    split; [exact Hx|]. unfold SF64add, SFadd.
    change (SFvalue (S754_zero sy)) with 0.
    rewrite Z.add_0_r. symmetry. exact Hfx.
  - (* finite, infinity *)
    split; [exact Hy|]. unfold SF64add, SFadd.
    symmetry. apply rnd_above_inf_value.
    change (SFvalue (S754_infinity sy)) with inf_value in *. lia.
  - (* finite, finite *)
    destruct sx, sy; try discriminate Hx; try discriminate Hy.
    apply valid_finite in Hvx, Hvy.
    destruct Hvx as (Hex & _), Hvy as (Hey & _).
    unfold SF64add, SFadd. cbv beta iota zeta delta [cond_Zopp].
    set (ez := Z.min ex ey).
    destruct (shl_align_spec mx ex ez) as [[_ Hmx] _]; [unfold ez; lia|].
    destruct (shl_align_spec my ey ez) as [[_ Hmy] _]; [unfold ez; lia|].
    rewrite <- Pos2Z.inj_add.
    cbv beta iota delta [binary_normalize].
    replace (SFvalue (S754_finite false mx ex) + SFvalue (S754_finite false my ey))
      with (Zpos (fst (shl_align mx ex ez) + fst (shl_align my ey ez))
            * 2 ^ (ez + 1074)).
    + apply binary_round_spec. unfold ez. lia.
    + rewrite Pos2Z.inj_add, Hmx, Hmy, Z.mul_add_distr_r.
      rewrite <- !Z.mul_assoc, <- !Z.pow_add_r by (unfold ez; lia).
      unfold SFvalue. do 3 f_equal; lia.
Qed.

Lemma SFvalue_lt_exponent (s1 s2 : bool) (m1 m2 : positive) (e1 e2 : Z) :
  valid_binary (S754_finite s1 m1 e1) = true ->
  valid_binary (S754_finite s2 m2 e2) = true ->
  e1 < e2 ->
  SFvalue (S754_finite s1 m1 e1) < SFvalue (S754_finite s2 m2 e2).
Proof.
  intros H1 H2 Hlt.
  apply valid_finite in H1, H2.
  destruct H1 as (He1 & Hl1 & _), H2 as (He2 & _ & Hn2).
  pose proof (Z.log2_spec (Zpos m1) ltac:(lia)) as [_ Hhi].
  pose proof (Z.log2_spec (Zpos m2) ltac:(lia)) as [Hlo _].
  rewrite Hn2 in Hlo by lia.
  assert (Hm1 : Zpos m1 < 2 ^ 53).
  { eapply Z.lt_le_trans; [exact Hhi|]. apply Z.pow_le_mono_r; lia. }
  unfold SFvalue.
  assert (Hp1 : 0 < 2 ^ (e1 + 1074)) by (apply Z.pow_pos_nonneg; lia).
  assert (Hp2 : 2 ^ (e2 + 1074) = 2 ^ (e2 - e1 - 1) * (2 * 2 ^ (e1 + 1074))).
  { rewrite <- Z.pow_succ_r, <- Z.pow_add_r by lia. f_equal. lia. }
  assert (Hp3 : 1 <= 2 ^ (e2 - e1 - 1))
    by (apply (Z.pow_le_mono_r 2 0); lia).
  rewrite Hp2.
  set (u := 2 ^ (e1 + 1074)) in *. set (w := 2 ^ (e2 - e1 - 1)) in *.
  change (2 ^ 53) with (2 * 2 ^ 52) in Hm1.
  set (c := 2 ^ 52) in *.
  assert (Zpos m1 * u < 2 * c * u) by (apply Z.mul_lt_mono_pos_r; lia).
  assert (c * (2 * u) <= Zpos m2 * (2 * u))
    by (apply Z.mul_le_mono_nonneg_r; lia).
  assert (Zpos m2 * (2 * u) * 1 <= Zpos m2 * (2 * u) * w)
    by (apply Z.mul_le_mono_nonneg_l; lia).
  lia.
Qed.

Lemma SFleb_spec (x y : spec_float) :
  valid_binary x = true -> valid_binary y = true ->
  SFnonneg x = true -> SFnonneg y = true ->
  SFleb x y = (SFvalue x <=? SFvalue y).
Proof.
  intros Hvx Hvy Hx Hy. assert (HI : 0 < inf_value) by reflexivity.
  destruct x as [sx|sx| |sx mx ex], y as [sy|sy| |sy my ey];
    try discriminate Hx; try discriminate Hy;
    try (destruct sx; try discriminate Hx);
    try (destruct sy; try discriminate Hy);
    try pose proof (SFvalue_finite_range _ _ _ Hvx) as Hbx;
    try pose proof (SFvalue_finite_range _ _ _ Hvy) as Hby;
    unfold SFleb, SFcompare;
    try change (SFvalue (S754_zero true)) with 0 in *;
    try change (SFvalue (S754_zero false)) with 0 in *;
    try change (SFvalue (S754_infinity false)) with inf_value in *;
    try (symmetry; apply Z.leb_le; lia);
    try (symmetry; apply Z.leb_gt; lia).
  destruct (Z.compare_spec ex ey) as [Heq|Hlt|Hgt].
  - subst ey. unfold SFvalue.
    assert (0 < 2 ^ (ex + 1074)).
    { apply valid_finite in Hvx. apply Z.pow_pos_nonneg; lia. }
    change (Pos.compare_cont Eq mx my) with (Z.compare (Zpos mx) (Zpos my)).
    destruct (Z.compare_spec (Zpos mx) (Zpos my)) as [Hm|Hm|Hm];
      symmetry; try (apply Z.leb_le); try (apply Z.leb_gt).
    + rewrite Hm. lia.
    + apply Z.mul_le_mono_nonneg_r; lia.
    + apply Z.mul_lt_mono_pos_r; lia.
  - pose proof (SFvalue_lt_exponent _ _ _ _ _ _ Hvx Hvy Hlt).
    symmetry. apply Z.leb_le. lia.
  - pose proof (SFvalue_lt_exponent _ _ _ _ _ _ Hvy Hvx ltac:(lia)).
    symmetry. apply Z.leb_gt. lia.
Qed.

Lemma fnonneg_spec (x : float) : fnonneg x <-> SFnonneg (Prim2SF x) = true.
Proof.
  unfold fnonneg. rewrite leb_spec.
  change (Prim2SF 0) with (S754_zero false).
  destruct (Prim2SF x) as [s|s| |s m e]; try destruct s;
    cbv [SFleb SFcompare SFnonneg negb]; split; congruence.
Qed.

Lemma fleb_value (a b : float) :
  fnonneg a -> fnonneg b -> (a <=? b)%float = (float_value a <=? float_value b).
Proof.
  intros Ha Hb. rewrite leb_spec. apply fnonneg_spec in Ha, Hb.
  apply SFleb_spec; auto using Prim2SF_valid.
Qed.

Lemma fadd_value (a b : float) :
  fnonneg a -> fnonneg b ->
  fnonneg (a + b) /\ float_value (a + b) = rnd (float_value a + float_value b).
Proof.
  intros Ha Hb. apply fnonneg_spec in Ha, Hb.
  rewrite fnonneg_spec. unfold float_value. rewrite add_spec.
  apply SFadd_spec; auto using Prim2SF_valid.
Qed.

Lemma float_value_range (a : float) : 0 <= float_value a <= inf_value.
Proof. apply SFvalue_range, Prim2SF_valid. Qed.

Lemma float_value_rnd (a : float) : rnd (float_value a) = float_value a.
Proof. apply SFvalue_rnd, Prim2SF_valid. Qed.

(** Addition of non-negative numbers is monotone in the first argument. *)
Lemma fadd_mono_l (a b c : float) :
  fnonneg a -> fnonneg b -> fnonneg c ->
  (a <=? b)%float = true -> (a + c <=? b + c)%float = true.
Proof.
  intros Ha Hb Hc Hab.
  destruct (fadd_value a c Ha Hc) as [Hac Eac].
  destruct (fadd_value b c Hb Hc) as [Hbc Ebc].
  rewrite fleb_value in Hab by assumption.
  rewrite fleb_value, Eac, Ebc by assumption.
  apply Z.leb_le in Hab. apply Z.leb_le, rnd_mono.
  pose proof (float_value_range a). pose proof (float_value_range c). lia.
Qed.

(** Adding a non-negative number does not make a non-negative number
    smaller. *)
Lemma fadd_increasing (a c : float) :
  fnonneg a -> fnonneg c -> (a <=? a + c)%float = true.
Proof.
  intros Ha Hc. destruct (fadd_value a c Ha Hc) as [Hac Eac].
  rewrite fleb_value, Eac by assumption.
  apply Z.leb_le. rewrite <- (float_value_rnd a) at 1. apply rnd_mono.
  pose proof (float_value_range a). pose proof (float_value_range c). lia.
Qed.

Lemma fleb_trans (a b c : float) :
  fnonneg a -> fnonneg b -> fnonneg c ->
  (a <=? b)%float = true -> (b <=? c)%float = true -> (a <=? c)%float = true.
Proof.
  intros Ha Hb Hc. rewrite !fleb_value by assumption.
  rewrite !Z.leb_le. lia.
Qed.

(** The array length is represented exactly while it is below [2^53]
    (array lengths are below [2^32]). *)
Lemma length_number_exact {A : Type} (l : list A) :
  Z.of_nat (List.length l) < 2 ^ 53 ->
  fnonneg (length_number l)
  /\ float_value (length_number l) = Z.of_nat (List.length l) * 2 ^ 1074.
Proof.
  intros Hlen. rewrite fnonneg_spec. unfold float_value, length_number.
  rewrite of_uint63_spec, Uint63.of_Z_spec.
  set (n := Z.of_nat (List.length l)) in *.
  assert (Hn : 0 <= n) by (unfold n; lia).
  rewrite Z.mod_small
    by (split; [exact Hn|]; eapply Z.lt_trans; [exact Hlen | reflexivity]).
  destruct n as [|p|p]; [split; reflexivity| |lia].
  cbv beta iota delta [binary_normalize].
  destruct (binary_round_spec p 0 ltac:(lia)) as [Hnn Hval].
  split; [exact Hnn|]. rewrite Hval. change (0 + 1074) with 1074.
  assert (Hlog : Z.log2 (Zpos p) <= 52).
  { assert (Z.log2 (Zpos p) < 53); [|lia]. apply Z.log2_lt_pow2; lia. }
  unfold rnd. rewrite rn_exact by lia.
  apply Z.min_r. apply Z.lt_le_incl.
  assert (Zpos p * 2 ^ 1074 < 2 ^ 53 * 2 ^ 1074)
    by (apply Z.mul_lt_mono_pos_r; [apply Z.pow_pos_nonneg|]; lia).
  eapply Z.lt_trans; [eassumption|]. reflexivity.
Qed.

(** The debit-only loop stays below the loop over all records. *)
Lemma fold_debit_le (txs : list Transaction) (acc1 acc2 : float) :
  Forall (fun t => fnonneg (transaction_amount t)) txs ->
  fnonneg acc1 -> fnonneg acc2 -> (acc1 <=? acc2)%float = true ->
  (fold_left add_amount (filter is_debit txs) acc1
   <=? fold_left add_amount txs acc2)%float = true.
Proof.
  intros Hall. revert acc1 acc2.
  induction Hall as [|t txs Ht _ IH]; intros acc1 acc2 H1 H2 Hle; simpl.
  - exact Hle.
  - destruct (fadd_value acc2 (transaction_amount t) H2 Ht) as [H2' _].
    destruct (is_debit t); simpl.
    + destruct (fadd_value acc1 (transaction_amount t) H1 Ht) as [H1' _].
      apply IH; try assumption.
      apply fadd_mono_l; assumption.
    + apply IH; try assumption.
      apply (fleb_trans acc1 acc2); try assumption.
      apply fadd_increasing; assumption.
Qed.

(** C4. When every amount is non-negative (not NaN, not below zero),
    [calculateTotalDebitAmount] is at most [calculateTotalAmount], as
    binary64 numbers with their rounding. *)
Theorem C4_debit_total_le_total (txs : list Transaction) :
  Forall (fun t => (0 <=? transaction_amount t)%float = true) txs ->
  (calculateTotalDebitAmount txs <=? calculateTotalAmount txs)%float = true.
Proof.
  intros Hall. unfold calculateTotalDebitAmount, calculateTotalAmount.
  apply fold_debit_le; try reflexivity. exact Hall.
Qed.

Lemma C4_debit_total_le_total_witness :
  (calculateTotalDebitAmount transactions
   <=? calculateTotalAmount transactions)%float = true.
Proof.
  apply (C4_debit_total_le_total transactions).
  repeat (apply Forall_cons; [reflexivity|]). apply Forall_nil.
Defined.

(** ** C6: total by date parts *)

Lemma DateFromTime_Day (t1 t2 : Z) :
  Day t1 = Day t2 -> DateFromTime t1 = DateFromTime t2.
Proof.
  intros H. unfold DateFromTime, DayWithinYear, InLeapYear.
  rewrite (MonthFromTime_Day t1 t2 H), (YearFromTime_Day t1 t2 H), H.
  reflexivity.
Qed.

Lemma Day_LocalTime_east (tza : Z -> Z) (d : Z) :
  tza_east tza -> Day (LocalTime tza (MakeDate d 0)) = d.
Proof.
  intros Hb. unfold LocalTime, Day.
  specialize (Hb (MakeDate d 0)).
  set (o := tza (MakeDate d 0)) in *.
  unfold MakeDate, msPerDay in *. rewrite Z.add_0_r.
  symmetry. apply (Z.div_unique _ _ d o); lia.
Qed.

Lemma date_fields_valid (s : string) (y m d : Z) :
  date_fields s = Some (y, m, d) ->
  1 <= m <= 12 /\ 1 <= d <= DaysInMonth y (m - 1).
Proof.
  unfold date_fields.
  repeat (destruct s as [|? s]; try discriminate).
  destruct (_ && _); [|discriminate].
  destruct (digits4 _ _ _ _) as [y'|]; [|discriminate].
  destruct (digits2 _ _) as [m'|]; [|discriminate].
  destruct (digits2 _ _) as [d'|]; [|discriminate].
  destruct (_ && _) eqn:Hv; [|discriminate].
  intros H. injection H as -> -> ->.
  rewrite !andb_true_iff, !Z.leb_le in Hv. lia.
Qed.

(** On a host at UTC or east of it the getters return the fields written
    in the date. *)
Lemma getters_east (tza : Z -> Z) (s : string) (y m d : Z) :
  tza_east tza ->
  date_fields s = Some (y, m, d) ->
  getFullYear tza (new_Date s) = Some y
  /\ month_number tza (new_Date s) = Some m
  /\ getDate tza (new_Date s) = Some d.
Proof.
  intros Hb Hf. pose proof (date_fields_valid s y m d Hf) as [Hm Hd].
  unfold month_number, getFullYear, getMonth, getDate, new_Date, parse.
  rewrite Hf. cbn [option_map].
  pose proof (Day_LocalTime_east tza (MakeDay y (m - 1) d) Hb) as Hday.
  rewrite <- (Day_MakeDate (MakeDay y (m - 1) d)) in Hday at 2.
  rewrite (YearFromTime_Day _ _ Hday), (MonthFromTime_Day _ _ Hday),
    (DateFromTime_Day _ _ Hday).
  destruct (civil_roundtrip y (m - 1) d ltac:(lia) Hd) as (-> & -> & ->).
  repeat split; f_equal; lia.
Qed.

Lemma matches_date_east (tza : Z -> Z) (year month day : option Z)
  (t : Transaction) :
  tza_east tza ->
  matches_date tza year month day t = matches_calendar year month day t.
Proof.
  intros Hb. unfold matches_date, matches_calendar.
  destruct (date_fields (transaction_date t)) as [[[y m] d]|] eqn:Hf.
  - destruct (getters_east tza _ y m d Hb Hf) as (-> & -> & ->).
    destruct year, month, day; reflexivity.
  - unfold new_Date, parse. rewrite Hf.
    destruct year, month, day; reflexivity.
Qed.

(** On a host at UTC or east of it, [calculateTotalAmountByDate] adds up
    exactly the records whose written date agrees with every given part
    (and gives 0 when there is none). *)
Theorem total_by_date_east_of_utc (tza : Z -> Z) (txs : list Transaction)
  (year month day : option Z) :
  tza_east tza ->
  calculateTotalAmountByDate tza txs year month day
  = fold_left add_amount (filter (matches_calendar year month day) txs) 0%float.
Proof.
  intros Hb. unfold calculateTotalAmountByDate. f_equal.
  apply filter_ext. intros t. apply matches_date_east, Hb.
Qed.

(** C6 at the input on which it fails: on a host west of UTC the record
    dated 2019-01-01 has local date 31 December 2018, and the query for
    January 2019 over the sample adds up 150 only (250 on a UTC host). *)
Theorem C6_sample_january_west_of_utc :
  calculateTotalAmountByDate tza_minus5 transactions (Some 2019) (Some 1) None
  = 150.0%float
  /\ calculateTotalAmountByDate tza_utc transactions (Some 2019) (Some 1) None
     = 250.0%float.
Proof. split; vm_compute; reflexivity. Qed.

(** * Further properties of the script *)

(** ** The order on strings *)

Lemma ascii_compare_lt_trans (a b c : ascii) :
  Ascii.compare a b = Lt -> Ascii.compare b c = Lt -> Ascii.compare a c = Lt.
Proof.
  unfold Ascii.compare. rewrite !N.compare_lt_iff. lia.
Qed.

Lemma string_compare_lt_trans (s1 s2 s3 : string) :
  String.compare s1 s2 = Lt -> String.compare s2 s3 = Lt ->
  String.compare s1 s3 = Lt.
Proof.
  revert s2 s3. induction s1 as [|a s1 IH]; intros [|b s2] [|c s3]; simpl;
    try discriminate; try reflexivity.
  destruct (Ascii.compare a b) eqn:Hab; try discriminate;
    destruct (Ascii.compare b c) eqn:Hbc; try discriminate; intros H1 H2.
  - apply Ascii.compare_eq_iff in Hab, Hbc. subst.
    rewrite (proj2 (N.compare_eq_iff _ _) eq_refl : Ascii.compare c c = Eq).
    eapply IH; eassumption.
  - apply Ascii.compare_eq_iff in Hab. subst. rewrite Hbc. reflexivity.
  - apply Ascii.compare_eq_iff in Hbc. subst. rewrite Hab. reflexivity.
  - rewrite (ascii_compare_lt_trans a b c Hab Hbc). reflexivity.
Qed.

Lemma string_compare_refl (s : string) : String.compare s s = Eq.
Proof.
  induction s as [|a s IH]; simpl; [reflexivity|].
  rewrite (proj2 (N.compare_eq_iff _ _) eq_refl : Ascii.compare a a = Eq).
  exact IH.
Qed.

Lemma string_leb_cases (s1 s2 : string) :
  String.leb s1 s2 = true <-> s1 = s2 \/ String.ltb s1 s2 = true.
Proof.
  unfold String.leb, String.ltb.
  destruct (String.compare s1 s2) eqn:Hc; split; intros H;
    try reflexivity; try discriminate H.
  - left. apply String.compare_eq_iff, Hc.
  - right. reflexivity.
  - destruct H as [->|H]; [|discriminate H].
    rewrite string_compare_refl in Hc. discriminate Hc.
Qed.

Lemma string_ltb_trans (s1 s2 s3 : string) :
  String.ltb s1 s2 = true -> String.ltb s2 s3 = true -> String.ltb s1 s3 = true.
Proof.
  unfold String.ltb.
  destruct (String.compare s1 s2) eqn:H12; try discriminate.
  destruct (String.compare s2 s3) eqn:H23; try discriminate.
  rewrite (string_compare_lt_trans _ _ _ H12 H23). reflexivity.
Qed.

Lemma string_leb_trans (s1 s2 s3 : string) :
  String.leb s1 s2 = true -> String.leb s2 s3 = true -> String.leb s1 s3 = true.
Proof.
  rewrite !string_leb_cases.
  intros [->|H12] [->|H23]; auto.
  right. eapply string_ltb_trans; eassumption.
Qed.

Lemma string_ltb_leb_trans (s1 s2 s3 : string) :
  String.ltb s1 s2 = true -> String.leb s2 s3 = true -> String.ltb s1 s3 = true.
Proof.
  intros H12 H23. apply string_leb_cases in H23.
  destruct H23 as [->|H23]; [exact H12|].
  eapply string_ltb_trans; eassumption.
Qed.

Lemma string_ltb_not_leb (s1 s2 : string) :
  String.ltb s1 s2 = true -> String.leb s2 s1 = false.
Proof.
  unfold String.ltb, String.leb. rewrite (String.compare_antisym s2 s1).
  destruct (String.compare s1 s2); simpl; congruence.
Qed.

(** ** The filters *)

Lemma filter_none {A : Type} (p : A -> bool) (l : list A) :
  (forall x, In x l -> p x = false) -> filter p l = [].
Proof.
  induction l as [|x l IH]; simpl; intros H; [reflexivity|].
  rewrite (H x (or_introl eq_refl)). apply IH. intros y Hy. apply H. now right.
Qed.

(** [getTransactionsInDateRange] returns exactly the records whose date
    string lies between the two bounds, both included, in their original
    order. *)
Theorem date_range_members (txs : list Transaction) (startDate endDate : string) :
  (forall t, In t (getTransactionsInDateRange txs startDate endDate)
             <-> In t txs
                 /\ String.leb startDate (transaction_date t) = true
                 /\ String.leb (transaction_date t) endDate = true)
  /\ subseq (getTransactionsInDateRange txs startDate endDate) txs.
Proof.
  unfold getTransactionsInDateRange. split; [|apply filter_subseq].
  intros t. rewrite filter_In. unfold in_date_range.
  rewrite andb_true_iff. tauto.
Qed.

(** When the start bound is after the end bound the range is empty, for
    every collection. *)
Theorem date_range_inverted_is_empty (txs : list Transaction)
  (startDate endDate : string) :
  String.leb startDate endDate = false ->
  getTransactionsInDateRange txs startDate endDate = [].
Proof.
  intros Hinv. apply filter_none. intros t _. unfold in_date_range.
  destruct (String.leb startDate (transaction_date t)) eqn:H1; [|reflexivity].
  destruct (String.leb (transaction_date t) endDate) eqn:H2; [|reflexivity].
  rewrite (string_leb_trans _ _ _ H1 H2) in Hinv. discriminate Hinv.
Qed.

Lemma date_range_inverted_is_empty_witness :
  getTransactionsInDateRange transactions "2019-02-01" "2019-01-01" = [].
Proof.
  apply (date_range_inverted_is_empty transactions "2019-02-01" "2019-01-01").
  reflexivity.
Defined.

(** [getTransactionsBeforeDate] returns exactly the records dated strictly
    before the cutoff, in their original order; a record dated on the
    cutoff is left out. *)
Theorem before_date_members (txs : list Transaction) (date : string) :
  (forall t, In t (getTransactionsBeforeDate txs date)
             <-> In t txs /\ String.ltb (transaction_date t) date = true)
  /\ subseq (getTransactionsBeforeDate txs date) txs
  /\ Forall (fun t => transaction_date t <> date)
       (getTransactionsBeforeDate txs date).
Proof.
  unfold getTransactionsBeforeDate. split; [|split].
  - intros t. apply filter_In.
  - apply filter_subseq.
  - apply Forall_forall. intros t Ht. apply filter_In in Ht.
    destruct Ht as [_ Hlt]. intros Heq. rewrite Heq in Hlt.
    unfold String.ltb in Hlt. rewrite string_compare_refl in Hlt.
    discriminate Hlt.
Qed.

(** The cutoff query and the range query split the records dated up to the
    end of the range: no record before the start is in the range, and a
    record dated no later than the end is returned by one of the two. *)
Theorem before_and_range_partition (txs : list Transaction)
  (startDate endDate : string) :
  getTransactionsInDateRange (getTransactionsBeforeDate txs startDate)
    startDate endDate = []
  /\ forall t, In t txs ->
       String.leb (transaction_date t) endDate = true ->
       In t (getTransactionsBeforeDate txs startDate)
       \/ In t (getTransactionsInDateRange txs startDate endDate).
Proof.
  split.
  - apply filter_none. intros t Ht.
    apply filter_In in Ht. destruct Ht as [_ Hlt]. unfold in_date_range.
    rewrite (string_ltb_not_leb _ _ Hlt). reflexivity.
  - intros t Ht Hend.
    unfold getTransactionsBeforeDate, getTransactionsInDateRange.
    rewrite !filter_In. unfold in_date_range.
    destruct (String.ltb (transaction_date t) startDate) eqn:Hlt; [auto|].
    right. split; [exact Ht|]. rewrite Hend, andb_true_r.
    unfold String.ltb, String.leb in *.
    rewrite (String.compare_antisym startDate (transaction_date t)).
    destruct (String.compare (transaction_date t) startDate);
      simpl; congruence.
Qed.

Lemma before_and_range_partition_witness :
  In (mkTransaction "3" "2019-02-10" 50.0%float "debit"
        "Dinner with friends" "RestaurantABC" "debit")
     (getTransactionsBeforeDate transactions "2019-02-01")
  \/ In (mkTransaction "3" "2019-02-10" 50.0%float "debit"
           "Dinner with friends" "RestaurantABC" "debit")
        (getTransactionsInDateRange transactions "2019-02-01" "2019-02-28").
Proof.
  apply (proj2 (before_and_range_partition transactions
                  "2019-02-01" "2019-02-28")).
  - simpl. auto.
  - reflexivity.
Defined.

(** A range whose two bounds are the same date selects exactly the records
    of that date. *)
Theorem one_day_range (txs : list Transaction) (date : string) :
  forall t, In t (getTransactionsInDateRange txs date date)
            <-> In t txs /\ transaction_date t = date.
Proof.
  intros t. unfold getTransactionsInDateRange.
  rewrite filter_In. unfold in_date_range. rewrite andb_true_iff. split.
  - intros (Ht & H1 & H2). split; [exact Ht|].
    symmetry. apply String.leb_antisym; assumption.
  - intros (Ht & ->). split; [exact Ht|].
    assert (String.leb date date = true)
      by (unfold String.leb; rewrite string_compare_refl; reflexivity).
    auto.
Qed.

Lemma filter_filter_implied {A : Type} (p q : A -> bool) (l : list A) :
  (forall x, p x = true -> q x = true) ->
  filter p (filter q l) = filter p l.
Proof.
  intros Himp. induction l as [|x l IH]; simpl; [reflexivity|].
  destruct (q x) eqn:Hq; simpl.
  - rewrite IH. reflexivity.
  - destruct (p x) eqn:Hp; [|exact IH].
    rewrite (Himp x Hp) in Hq. discriminate Hq.
Qed.

(** Cutting at a later date first does not change what an earlier cutoff
    returns. *)
Theorem before_date_nested (txs : list Transaction) (d1 d2 : string) :
  String.leb d1 d2 = true ->
  getTransactionsBeforeDate (getTransactionsBeforeDate txs d2) d1
  = getTransactionsBeforeDate txs d1.
Proof.
  intros Hle. unfold getTransactionsBeforeDate.
  apply filter_filter_implied. intros t Ht.
  eapply string_ltb_leb_trans; eassumption.
Qed.

Lemma before_date_nested_witness :
  getTransactionsBeforeDate
    (getTransactionsBeforeDate transactions "2019-03-01") "2019-02-01"
  = getTransactionsBeforeDate transactions "2019-02-01".
Proof.
  apply (before_date_nested transactions "2019-02-01" "2019-03-01").
  reflexivity.
Defined.

(** [getTransactionsByMerchant] returns exactly the records whose merchant
    name is the given string (character for character), in their original
    order. *)
Theorem by_merchant_members (txs : list Transaction) (merchantName : string) :
  (forall t, In t (getTransactionsByMerchant txs merchantName)
             <-> In t txs /\ merchant_name t = merchantName)
  /\ subseq (getTransactionsByMerchant txs merchantName) txs.
Proof.
  unfold getTransactionsByMerchant. split; [|apply filter_subseq].
  intros t. rewrite filter_In, String.eqb_eq. tauto.
Qed.

(** ** The order on binary64 numbers of either sign *)

Lemma SFsigned_finite (s : bool) (m : positive) (e : Z) :
  SFsigned (S754_finite s m e)
  = if s then - SFvalue (S754_finite s m e) else SFvalue (S754_finite s m e).
Proof. destruct s; reflexivity. Qed.

(** [<=] on numbers is the order of their signed values, and is false
    when an operand is NaN. *)
Lemma SFleb_signed (x y : spec_float) :
  valid_binary x = true -> valid_binary y = true ->
  SFleb x y
  = negb (SFis_nan x) && negb (SFis_nan y) && (SFsigned x <=? SFsigned y).
Proof.
  intros Hvx Hvy. assert (HI : 0 < inf_value) by reflexivity.
  destruct x as [sx|sx| |sx mx ex], y as [sy|sy| |sy my ey];
    try reflexivity;
    try pose proof (SFvalue_finite_range _ _ _ Hvx) as Hbx;
    try pose proof (SFvalue_finite_range _ _ _ Hvy) as Hby;
    rewrite ?SFsigned_finite;
    unfold SFleb, SFcompare, SFis_nan; cbn [negb andb];
    try change (SFsigned (S754_zero sx)) with 0;
    try change (SFsigned (S754_zero sy)) with 0;
    try (destruct sx); try (destruct sy);
    try change (SFsigned (S754_infinity true)) with (- inf_value);
    try change (SFsigned (S754_infinity false)) with inf_value;
    try (symmetry; apply Z.leb_le; lia);
    try (symmetry; apply Z.leb_gt; lia).
  - (* both negative *)
    destruct (Z.compare_spec ex ey) as [Heq|Hlt|Hgt].
    + subst ey. unfold SFvalue in *.
      assert (0 < 2 ^ (ex + 1074)).
      { apply valid_finite in Hvx. apply Z.pow_pos_nonneg; lia. }
      change (Pos.compare_cont Eq mx my) with (Z.compare (Zpos mx) (Zpos my)).
      destruct (Z.compare_spec (Zpos mx) (Zpos my)) as [Hm|Hm|Hm];
        cbn [CompOpp]; symmetry; try (apply Z.leb_le); try (apply Z.leb_gt).
      * rewrite Hm. lia.
      * assert (Zpos mx * 2 ^ (ex + 1074) < Zpos my * 2 ^ (ex + 1074))
          by (apply Z.mul_lt_mono_pos_r; lia). lia.
      * assert (Zpos my * 2 ^ (ex + 1074) < Zpos mx * 2 ^ (ex + 1074))
          by (apply Z.mul_lt_mono_pos_r; lia). lia.
    + pose proof (SFvalue_lt_exponent _ _ _ _ _ _ Hvx Hvy Hlt).
      symmetry. apply Z.leb_gt. lia.
    + pose proof (SFvalue_lt_exponent _ _ _ _ _ _ Hvy Hvx ltac:(lia)).
      symmetry. apply Z.leb_le. lia.
  - (* both positive *)
    destruct (Z.compare_spec ex ey) as [Heq|Hlt|Hgt].
    + subst ey. unfold SFvalue in *.
      assert (0 < 2 ^ (ex + 1074)).
      { apply valid_finite in Hvx. apply Z.pow_pos_nonneg; lia. }
      change (Pos.compare_cont Eq mx my) with (Z.compare (Zpos mx) (Zpos my)).
      destruct (Z.compare_spec (Zpos mx) (Zpos my)) as [Hm|Hm|Hm];
        symmetry; try (apply Z.leb_le); try (apply Z.leb_gt).
      * rewrite Hm. lia.
      * apply Z.mul_le_mono_nonneg_r; lia.
      * apply Z.mul_lt_mono_pos_r; lia.
    + pose proof (SFvalue_lt_exponent _ _ _ _ _ _ Hvx Hvy Hlt).
      symmetry. apply Z.leb_le. lia.
    + pose proof (SFvalue_lt_exponent _ _ _ _ _ _ Hvy Hvx ltac:(lia)).
      symmetry. apply Z.leb_gt. lia.
Qed.

Lemma fleb_signed (a b : float) :
  (a <=? b)%float
  = negb (SFis_nan (Prim2SF a)) && negb (SFis_nan (Prim2SF b))
    && (SFsigned (Prim2SF a) <=? SFsigned (Prim2SF b)).
Proof. rewrite leb_spec. apply SFleb_signed; apply Prim2SF_valid. Qed.

(** [<=] on numbers is transitive (NaN is related to nothing). *)
Lemma fleb_trans_any (a b c : float) :
  (a <=? b)%float = true -> (b <=? c)%float = true -> (a <=? c)%float = true.
Proof.
  rewrite !fleb_signed, !andb_true_iff, !Z.leb_le.
  intros [[Ha Hb] Hab] [[_ Hc] Hbc]. repeat split; try assumption. lia.
Qed.

Lemma fleb_not_nan (a b : float) :
  (a <=? b)%float = true ->
  PrimFloat.is_nan a = false /\ PrimFloat.is_nan b = false.
Proof.
  assert (Hself : forall x, SFis_nan (Prim2SF x) = false ->
                            PrimFloat.is_nan x = false).
  { intros x Hx. unfold PrimFloat.is_nan. rewrite eqb_spec.
    pose proof (Prim2SF_valid x) as Hv.
    destruct (Prim2SF x) as [s|s| |s m e]; try discriminate Hx.
    - reflexivity.
    - destruct s; reflexivity.
    - unfold SFeqb, SFcompare. rewrite Z.compare_refl.
      change (Pos.compare_cont Eq m m) with (Pos.compare m m).
      rewrite Pos.compare_refl. destruct s; reflexivity. }
  rewrite fleb_signed, !andb_true_iff, !negb_true_iff.
  intros [[Ha Hb] _]. split; apply Hself; assumption.
Qed.

(** [getTransactionsByAmountRange] returns exactly the records whose amount
    lies between the two bounds, both included, in their original order;
    a record whose amount is NaN is never returned. *)
Theorem by_amount_range_members (txs : list Transaction)
  (minAmount maxAmount : float) :
  (forall t, In t (getTransactionsByAmountRange txs minAmount maxAmount)
             <-> In t txs
                 /\ (minAmount <=? transaction_amount t)%float = true
                 /\ (transaction_amount t <=? maxAmount)%float = true)
  /\ subseq (getTransactionsByAmountRange txs minAmount maxAmount) txs
  /\ Forall (fun t => PrimFloat.is_nan (transaction_amount t) = false)
       (getTransactionsByAmountRange txs minAmount maxAmount).
Proof.
  unfold getTransactionsByAmountRange. split; [|split].
  - intros t. rewrite filter_In, andb_true_iff. tauto.
  - apply filter_subseq.
  - apply Forall_forall. intros t Ht. apply filter_In in Ht.
    destruct Ht as [_ Ht]. apply andb_true_iff in Ht.
    apply (fleb_not_nan _ _ (proj1 Ht)).
Qed.

(** When the minimum is not at most the maximum (it is greater, or a bound
    is NaN) the amount range is empty, for every collection. *)
Theorem by_amount_range_inverted_is_empty (txs : list Transaction)
  (minAmount maxAmount : float) :
  (minAmount <=? maxAmount)%float = false ->
  getTransactionsByAmountRange txs minAmount maxAmount = [].
Proof.
  intros Hinv. apply filter_none. intros t _.
  destruct (minAmount <=? transaction_amount t)%float eqn:H1; [|reflexivity].
  destruct (transaction_amount t <=? maxAmount)%float eqn:H2; [|reflexivity].
  rewrite (fleb_trans_any _ _ _ H1 H2) in Hinv. discriminate Hinv.
Qed.

Lemma by_amount_range_inverted_is_empty_witness :
  getTransactionsByAmountRange transactions 100%float 50%float = [].
Proof.
  apply (by_amount_range_inverted_is_empty transactions 100%float 50%float).
  reflexivity.
Defined.

(** ** The sums *)

Lemma fleb_refl_nonneg (a : float) : fnonneg a -> (a <=? a)%float = true.
Proof. intros Ha. rewrite fleb_value by assumption. apply Z.leb_refl. Qed.

(** The loop over the records kept by any filter stays below the loop over
    all records. *)
Lemma fold_filter_le (p : Transaction -> bool) (txs : list Transaction)
  (acc1 acc2 : float) :
  Forall (fun t => fnonneg (transaction_amount t)) txs ->
  fnonneg acc1 -> fnonneg acc2 -> (acc1 <=? acc2)%float = true ->
  (fold_left add_amount (filter p txs) acc1
   <=? fold_left add_amount txs acc2)%float = true.
Proof.
  intros Hall. revert acc1 acc2.
  induction Hall as [|t txs Ht _ IH]; intros acc1 acc2 H1 H2 Hle; simpl.
  - exact Hle.
  - destruct (fadd_value acc2 (transaction_amount t) H2 Ht) as [H2' _].
    destruct (p t); simpl.
    + destruct (fadd_value acc1 (transaction_amount t) H1 Ht) as [H1' _].
      apply IH; try assumption.
      apply fadd_mono_l; assumption.
    + apply IH; try assumption.
      apply (fleb_trans acc1 acc2); try assumption.
      apply fadd_increasing; assumption.
Qed.

Lemma fold_add_nonneg (txs : list Transaction) (acc : float) :
  Forall (fun t => fnonneg (transaction_amount t)) txs ->
  fnonneg acc ->
  fnonneg (fold_left add_amount txs acc)
  /\ (acc <=? fold_left add_amount txs acc)%float = true.
Proof.
  intros Hall. revert acc.
  induction Hall as [|t txs Ht _ IH]; intros acc Hacc; simpl.
  - split; [exact Hacc | apply fleb_refl_nonneg, Hacc].
  - destruct (fadd_value acc (transaction_amount t) Hacc Ht) as [Hacc' _].
    destruct (IH _ Hacc') as [Hnn Hle]. split; [exact Hnn|].
    apply (fleb_trans acc (add_amount acc t)); try assumption.
    apply fadd_increasing; assumption.
Qed.

(** With non-negative amounts the total is a non-negative number, never
    NaN, and adding further records to the collection never lowers it. *)
Theorem total_nonneg_and_growing (txs more : list Transaction) :
  Forall (fun t => (0 <=? transaction_amount t)%float = true) (txs ++ more) ->
  (0 <=? calculateTotalAmount txs)%float = true
  /\ PrimFloat.is_nan (calculateTotalAmount txs) = false
  /\ (calculateTotalAmount txs <=? calculateTotalAmount (txs ++ more))%float
     = true.
Proof.
  intros Hall. apply Forall_app in Hall. destruct Hall as [H1 H2].
  unfold calculateTotalAmount.
  destruct (fold_add_nonneg txs 0%float H1 eq_refl) as [Hnn _].
  split; [exact Hnn|]. split; [apply (fleb_not_nan _ _ Hnn)|].
  rewrite fold_left_app. apply fold_add_nonneg; assumption.
Qed.

Lemma total_nonneg_and_growing_witness :
  (calculateTotalAmount transactions
   <=? calculateTotalAmount (transactions ++ tie_sample))%float = true.
Proof.
  apply (total_nonneg_and_growing transactions tie_sample).
  repeat (apply Forall_cons; [reflexivity|]). apply Forall_nil.
Defined.

(** On every host and for every choice of date parts, with non-negative
    amounts the total by date is at most the total. *)
Theorem total_by_date_le_total (tza : Z -> Z) (txs : list Transaction)
  (year month day : option Z) :
  Forall (fun t => (0 <=? transaction_amount t)%float = true) txs ->
  (calculateTotalAmountByDate tza txs year month day
   <=? calculateTotalAmount txs)%float = true.
Proof.
  intros Hall. unfold calculateTotalAmountByDate, calculateTotalAmount.
  apply fold_filter_le; try reflexivity. exact Hall.
Qed.

Lemma total_by_date_le_total_witness :
  (calculateTotalAmountByDate tza_minus5 transactions
     (Some 2019%Z) (Some 1%Z) None
   <=? calculateTotalAmount transactions)%float = true.
Proof.
  apply (total_by_date_le_total tza_minus5 transactions (Some 2019) (Some 1) None).
  repeat (apply Forall_cons; [reflexivity|]). apply Forall_nil.
Defined.

Lemma rnd_whole (k : Z) :
  0 <= k < 2 ^ 53 -> rnd (k * 2 ^ 1074) = k * 2 ^ 1074.
Proof.
  intros [H0 Hk]. destruct (Z.eq_dec k 0) as [->|Hne]; [exact rnd_zero|].
  assert (Hlog : Z.log2 k <= 52).
  { assert (Z.log2 k < 53); [|lia]. apply Z.log2_lt_pow2; lia. }
  unfold rnd. rewrite rn_exact by lia.
  apply Z.min_r. apply Z.lt_le_incl.
  assert (k * 2 ^ 1074 < 2 ^ 53 * 2 ^ 1074)
    by (apply Z.mul_lt_mono_pos_r; [apply Z.pow_pos_nonneg|]; lia).
  eapply Z.lt_trans; [eassumption|]. reflexivity.
Qed.

Lemma whole_amounts_sum_nonneg (txs : list Transaction) (ns : list Z) :
  Forall2 whole_amount txs ns -> 0 <= sum_Z ns.
Proof.
  induction 1 as [|t n txs ns (Hn & _) _ IH]; [reflexivity|].
  change (sum_Z (n :: ns)) with (n + sum_Z ns). lia.
Qed.

Lemma fold_add_whole (txs : list Transaction) (ns : list Z) (acc : float) (a : Z) :
  Forall2 whole_amount txs ns ->
  0 <= a -> fnonneg acc -> float_value acc = a * 2 ^ 1074 ->
  a + sum_Z ns < 2 ^ 53 ->
  float_value (fold_left add_amount txs acc) = (a + sum_Z ns) * 2 ^ 1074.
Proof.
  intros Hall. revert acc a.
  induction Hall as [|t n txs ns (Hn & Ht & Hv) Hrest IH];
    intros acc a Ha Hacc Hval Hsum;
    cbn [fold_left sum_Z fold_right] in *;
    try change (fold_right Z.add 0 ns) with (sum_Z ns) in *.
  - rewrite Z.add_0_r. exact Hval.
  - pose proof (whole_amounts_sum_nonneg txs ns Hrest) as Hpos.
    destruct (fadd_value acc (transaction_amount t) Hacc Ht) as [Hacc' Hval'].
    rewrite (IH (add_amount acc t) (a + n)); try assumption; try lia.
    unfold add_amount. rewrite Hval', Hval, Hv, <- Z.mul_add_distr_r.
    apply rnd_whole. lia.
Qed.

Lemma total_value_for_whole_amounts (txs : list Transaction) (ns : list Z) :
  Forall2 whole_amount txs ns ->
  sum_Z ns < 2 ^ 53 ->
  float_value (calculateTotalAmount txs) = sum_Z ns * 2 ^ 1074.
Proof.
  intros Hall Hsum. unfold calculateTotalAmount.
  rewrite (fold_add_whole txs ns 0%float 0 Hall); try reflexivity; try lia.
Qed.

(** The total depends on the order of the records, even with non-negative
    amounts: there are two arrangements of the same records with different
    totals (three records that add up to [2^53] in one order and to
    [2^53 + 2] in the other). *)
Theorem total_depends_on_order :
  exists txs txs' : list Transaction,
    Permutation txs txs'
    /\ Forall (fun t => (0 <=? transaction_amount t)%float = true) txs
    /\ (calculateTotalAmount txs <? calculateTotalAmount txs')%float = true.
Proof.
  exists large_first, large_last. split; [|split].
  - unfold large_first, large_last.
    eapply perm_trans; [apply perm_swap|]. apply perm_skip. apply perm_swap.
  - repeat (apply Forall_cons; [reflexivity|]). apply Forall_nil.
  - vm_compute. reflexivity.
Qed.

(** ** The dominant type *)

Lemma filter_type_length (ty : string) (txs : list Transaction) :
  List.length (filter (fun t => String.eqb (transaction_type t) ty) txs)
  = type_count ty txs.
Proof.
  unfold type_count. induction txs as [|t txs IH]; simpl; [reflexivity|].
  destruct (String.eqb_spec (transaction_type t) ty) as [Heq|Hne];
    destruct (string_dec (transaction_type t) ty); try congruence;
    simpl; rewrite IH; reflexivity.
Qed.

(** [mostTransactionTypes] compares the number of debit records with the
    number of credit records and nothing else: "debit" exactly when there
    are more debit records, "credit" exactly when there are more credit
    records, "equal" exactly when there are as many (also when there are
    none); records of any other type do not count. *)
Theorem dominant_type_spec (txs : list Transaction) :
  (mostTransactionTypes txs = "debit"
   <-> (type_count "credit" txs < type_count "debit" txs)%nat)
  /\ (mostTransactionTypes txs = "credit"
      <-> (type_count "debit" txs < type_count "credit" txs)%nat)
  /\ (mostTransactionTypes txs = "equal"
      <-> type_count "debit" txs = type_count "credit" txs).
Proof.
  unfold mostTransactionTypes, is_debit, is_credit.
  rewrite !filter_type_length.
  destruct (Nat.ltb_spec (type_count "credit" txs) (type_count "debit" txs));
    [|destruct (Nat.ltb_spec (type_count "debit" txs) (type_count "credit" txs))];
    repeat split; intros; try reflexivity; try discriminate; lia.
Qed.

(** The answer does not depend on the order of the records. *)
Theorem dominant_type_permutation (txs txs' : list Transaction) :
  Permutation txs txs' ->
  mostTransactionTypes txs = mostTransactionTypes txs'.
Proof.
  intros Hp. unfold mostTransactionTypes, is_debit, is_credit.
  rewrite !filter_type_length. unfold type_count.
  assert (Hc : forall ty, count_occ string_dec (map transaction_type txs) ty
                          = count_occ string_dec (map transaction_type txs') ty).
  { apply Permutation_count_occ. apply Permutation_map. exact Hp. }
  rewrite !Hc. reflexivity.
Qed.

Lemma dominant_type_permutation_witness :
  mostTransactionTypes large_first = mostTransactionTypes large_last.
Proof.
  apply (dominant_type_permutation large_first large_last).
  unfold large_first, large_last.
  eapply perm_trans; [apply perm_swap|]. apply perm_skip. apply perm_swap.
Defined.

(** ** The month queries *)

(** On a non-empty collection the reduction returns the key of a record
    whose month has the highest count, the last such key in key order. *)
Lemma most_month_highest (tza : Z -> Z) (txs : list Transaction) :
  txs <> [] ->
  exists t,
    In t txs
    /\ findMostTransactionsMonth tza txs
       = JString (key_to_string (tx_month_key tza t))
    /\ forall u, In u txs ->
         (month_count tza txs (tx_month_key tza u)
          <= month_count tza txs (tx_month_key tza t))%nat
         /\ (month_count tza txs (tx_month_key tza u)
             = month_count tza txs (tx_month_key tza t) ->
             key_le (tx_month_key tza u) (tx_month_key tza t)).
Proof.
  intros Hne. destruct txs as [|t0 rest]; [congruence|].
  set (txs := t0 :: rest).
  change (findMostTransactionsMonth tza txs)
    with (reduce_keys (pick_key (month_counts tza txs))
            (obj_keys (month_counts tza txs))).
  set (counts := month_counts tza txs).
  assert (Hkeys : forall u, In u txs -> In (tx_month_key tza u) (obj_keys counts)).
  { intros u Hu. apply month_counts_keys, month_count_pos. exists u. auto. }
  destruct (obj_keys counts) as [|k0 ks] eqn:Hk.
  { destruct (Hkeys t0). left. reflexivity. }
  simpl. set (r := fold_left (pick_key counts) ks k0).
  destruct (reduce_last_highest counts ks [] [] k0) as (l1 & l2 & Heq & H1 & H2).
  { rewrite <- Hk. apply Forall_forall. intros k. apply obj_get_In. }
  { constructor. }
  { constructor. }
  simpl in Heq. fold r in Heq, H1, H2.
  assert (Hr : In r (obj_keys counts)).
  { rewrite Hk, Heq. apply in_elt. }
  apply month_counts_keys, month_count_pos in Hr.
  destruct Hr as (t & Ht & Hkt).
  exists t. split; [exact Ht|]. split; [rewrite Hkt; reflexivity|].
  intros u Hu. rewrite Hkt.
  rewrite <- !(count_of_month_counts tza txs). fold counts.
  pose proof (Hkeys u Hu) as Hin. rewrite Heq in Hin.
  pose proof (proj1 (month_counts_spec tza txs)) as Hord.
  unfold keys_ordered in Hord. fold counts in Hord. rewrite Hk, Heq in Hord.
  apply StronglySorted_before in Hord.
  rewrite Forall_forall in H1, H2, Hord.
  apply in_app_or in Hin. destruct Hin as [Hin|[Hin|Hin]].
  - split; [apply H1, Hin|]. intros _.
    rewrite <- Hkt. apply tx_month_key_le. right. rewrite Hkt.
    apply Hord, Hin.
  - split; [rewrite <- Hin; lia|]. intros _.
    rewrite <- Hkt. apply tx_month_key_le. left. congruence.
  - specialize (H2 _ Hin). split; lia.
Qed.

(** [findMostTransactionsMonth] never raises the TypeError of [reduce] on an
    empty array: the counter object of a non-empty collection has a key.
    It returns [null] for the empty collection only. *)
Theorem most_month_never_throws (tza : Z -> Z) (txs : list Transaction) :
  findMostTransactionsMonth tza txs <> JTypeError
  /\ (findMostTransactionsMonth tza txs = JNull <-> txs = []).
Proof.
  destruct txs as [|t0 rest]; [split; [discriminate | tauto]|].
  destruct (most_month_highest tza (t0 :: rest) ltac:(discriminate))
    as (t & _ & -> & _).
  split; [discriminate|]. split; discriminate.
Qed.

Lemma MonthFromTime_range (t : Z) : 0 <= MonthFromTime t <= 11.
Proof.
  unfold MonthFromTime.
  repeat match goal with
         | |- context [if ?a <? ?b then _ else _] => destruct (a <? b)
         end; lia.
Qed.

Lemma tx_month_key_string (tza : Z -> Z) (t : Transaction) :
  In (key_to_string (tx_month_key tza t)) month_strings
  /\ (key_to_string (tx_month_key tza t) = "NaN" ->
      date_fields (transaction_date t) = None).
Proof.
  unfold tx_month_key, month_number, getMonth, new_Date, parse.
  destruct (date_fields (transaction_date t)) as [[[y m] d]|];
    [|split; [cbn; tauto | reflexivity]].
  cbn [option_map month_key key_to_string].
  set (lt := LocalTime tza _).
  pose proof (MonthFromTime_range lt) as Hr.
  assert (Hc : MonthFromTime lt = 0 \/ MonthFromTime lt = 1
               \/ MonthFromTime lt = 2 \/ MonthFromTime lt = 3
               \/ MonthFromTime lt = 4 \/ MonthFromTime lt = 5
               \/ MonthFromTime lt = 6 \/ MonthFromTime lt = 7
               \/ MonthFromTime lt = 8 \/ MonthFromTime lt = 9
               \/ MonthFromTime lt = 10 \/ MonthFromTime lt = 11) by lia.
  repeat (destruct Hc as [Hc|Hc];
          [rewrite Hc; split; [cbn; tauto | discriminate]|]).
  rewrite Hc; split; [cbn; tauto | discriminate].
Qed.

(** What a month query returns is [null] or one of the strings "1" to "12"
    and "NaN" (a string, not a number); and it returns "NaN" only when
    some record's date is not a valid [YYYY-MM-DD] date. *)
Theorem most_month_result_range (tza : Z -> Z) (txs : list Transaction) :
  (findMostTransactionsMonth tza txs = JNull
   \/ exists s, findMostTransactionsMonth tza txs = JString s
                /\ In s month_strings)
  /\ (findMostTransactionsMonth tza txs = JString "NaN" ->
      exists t, In t txs /\ date_fields (transaction_date t) = None).
Proof.
  destruct txs as [|t0 rest]; [split; [left; reflexivity | discriminate]|].
  destruct (most_month_highest tza (t0 :: rest) ltac:(discriminate))
    as (t & Ht & -> & _).
  destruct (tx_month_key_string tza t) as [Hin Hnan].
  split.
  - right. eexists. split; [reflexivity | exact Hin].
  - intros H. injection H as H. exists t. auto.
Qed.

Lemma most_month_result_range_witness :
  exists t,
    In t [ mkTransaction "x" "n/a" 1.0%float "debit" "" "" "debit" ]
    /\ date_fields (transaction_date t) = None.
Proof.
  apply (proj2 (most_month_result_range tza_utc
                  [ mkTransaction "x" "n/a" 1.0%float "debit" "" "" "debit" ])).
  vm_compute. reflexivity.
Defined.

Lemma obj_total_set (o : js_object) (k : prop_key) :
  keys_ordered o ->
  obj_total (obj_set o k (count_of o k + 1)) = S (obj_total o).
Proof.
  unfold count_of, keys_ordered.
  induction o as [|[k0 v0] o IH]; simpl; intros Hs; [reflexivity|].
  apply StronglySorted_inv in Hs. destruct Hs as [Hs Hall].
  destruct (key_eqb k k0) eqn:Hk; simpl; [lia|].
  destruct (key_before k k0) eqn:Hb; simpl.
  - destruct (obj_get o k) as [c|] eqn:Hget; [|lia].
    exfalso.
    assert (Hin : In k (obj_keys o)) by (apply obj_get_In; congruence).
    rewrite Forall_forall in Hall. specialize (Hall k Hin).
    pose proof (key_before_precedes _ _ Hb) as Hp.
    destruct k, k0; simpl in *; try discriminate; try tauto; lia.
  - rewrite (IH Hs). lia.
Qed.

(** Every record is counted once: the counts of the counter object add up
    to the number of records. *)
Theorem month_counts_total (tza : Z -> Z) (txs : list Transaction) :
  obj_total (month_counts tza txs) = List.length txs.
Proof.
  induction txs as [|t txs IH] using rev_ind; [reflexivity|].
  rewrite month_counts_snoc, length_app. simpl.
  unfold count_month.
  change (match obj_get (month_counts tza txs) (tx_month_key tza t) with
          | Some c => c | None => O end)
    with (count_of (month_counts tza txs) (tx_month_key tza t)).
  rewrite obj_total_set, IH by apply month_counts_spec. lia.
Qed.

(** ** Dates and hosts *)

(** On a host at UTC or east of it, over records with valid [YYYY-MM-DD]
    dates, [calculateTotalAmountByDate] adds up exactly the records whose
    written year, month and day agree with every part that is given. *)
Theorem total_by_date_east_well_formed (tza : Z -> Z) (txs : list Transaction)
  (year month day : option Z) :
  tza_east tza ->
  Forall (fun t => date_fields (transaction_date t) <> None) txs ->
  calculateTotalAmountByDate tza txs year month day
  = fold_left add_amount (filter (matches_calendar year month day) txs) 0%float.
Proof.
  intros Hb _. unfold calculateTotalAmountByDate. f_equal.
  apply filter_ext. intros t. apply matches_date_east, Hb.
Qed.

Lemma total_by_date_east_well_formed_witness :
  calculateTotalAmountByDate tza_utc transactions (Some 2019) (Some 1) None
  = fold_left add_amount
      (filter (matches_calendar (Some 2019) (Some 1) None) transactions)
      0%float.
Proof.
  apply (total_by_date_east_well_formed tza_utc transactions
           (Some 2019) (Some 1) None).
  - intros t. unfold tza_utc, msPerDay. lia.
  - repeat (apply Forall_cons; [discriminate|]). apply Forall_nil.
Defined.

(** The getters are consistent with [MakeDay]: the day of a time value is
    the day made from its year, month and date. *)
Lemma MakeDay_getters (t : Z) :
  MakeDay (YearFromTime t) (MonthFromTime t) (DateFromTime t) = Day t.
Proof.
  unfold MakeDay, DateFromTime, DaysBeforeMonth, InLeapYear.
  set (leap := if DaysInYear (YearFromTime t) =? 365 then 0 else 1).
  pose proof (MonthFromTime_range t) as Hr.
  assert (Hc : MonthFromTime t = 0 \/ MonthFromTime t = 1
               \/ MonthFromTime t = 2 \/ MonthFromTime t = 3
               \/ MonthFromTime t = 4 \/ MonthFromTime t = 5
               \/ MonthFromTime t = 6 \/ MonthFromTime t = 7
               \/ MonthFromTime t = 8 \/ MonthFromTime t = 9
               \/ MonthFromTime t = 10 \/ MonthFromTime t = 11) by lia.
  unfold DayWithinYear.
  repeat (destruct Hc as [Hc|Hc]; [rewrite Hc; cbv beta iota; lia|]).
  rewrite Hc; cbv beta iota; lia.
Qed.

Lemma Day_LocalTime_west (tza : Z -> Z) (d : Z) :
  tza_west tza -> Day (LocalTime tza (MakeDate d 0)) = d - 1.
Proof.
  intros Hb. unfold LocalTime, Day.
  specialize (Hb (MakeDate d 0)).
  set (o := tza (MakeDate d 0)) in *.
  unfold MakeDate, msPerDay in *. rewrite Z.add_0_r.
  symmetry. apply (Z.div_unique _ _ (d - 1) (o + 86400000)); lia.
Qed.

Lemma own_date_not_matched_west (tza : Z -> Z) (t : Transaction) (y m d : Z) :
  tza_west tza ->
  date_fields (transaction_date t) = Some (y, m, d) ->
  matches_date tza (Some y) (Some m) (Some d) t = false.
Proof.
  intros Hw Hf. unfold matches_date, month_number, getFullYear, getMonth,
    getDate, new_Date, parse. rewrite Hf.
  cbn [option_map matches_part strict_eq_number].
  set (lt := LocalTime tza (MakeDate (MakeDay y (m - 1) d) 0)).
  pose proof (Day_LocalTime_west tza (MakeDay y (m - 1) d) Hw) as Hday.
  fold lt in Hday. pose proof (MakeDay_getters lt) as Hg.
  destruct (Z.eqb_spec (YearFromTime lt) y) as [Hy|]; [|reflexivity].
  destruct (Z.eqb_spec (MonthFromTime lt + 1) m) as [Hm|]; [|reflexivity].
  destruct (Z.eqb_spec (DateFromTime lt) d) as [Hd|]; [|reflexivity].
  exfalso. rewrite Hy, Hd in Hg.
  replace (MonthFromTime lt) with (m - 1) in Hg by lia. lia.
Qed.

(** On a host west of UTC the total for a full date never counts the
    records that carry that very date: over records all dated [y-m-d], the
    query for year [y], month [m] and day [d] returns 0. *)
Theorem total_by_own_date_west_is_zero (tza : Z -> Z) (txs : list Transaction)
  (y m d : Z) :
  tza_west tza ->
  Forall (fun t => date_fields (transaction_date t) = Some (y, m, d)) txs ->
  calculateTotalAmountByDate tza txs (Some y) (Some m) (Some d) = 0%float.
Proof.
  intros Hw Hall. unfold calculateTotalAmountByDate.
  rewrite filter_none; [reflexivity|].
  intros t Ht. rewrite Forall_forall in Hall.
  apply own_date_not_matched_west; auto.
Qed.

Lemma total_by_own_date_west_is_zero_witness :
  calculateTotalAmountByDate tza_minus5
    [ mkTransaction "1" "2019-01-01" 100.0%float "debit"
        "Payment for groceries" "SuperMart" "debit" ]
    (Some 2019) (Some 1) (Some 1) = 0%float.
Proof.
  apply (total_by_own_date_west_is_zero tza_minus5 _ 2019 1 1).
  - intros t. unfold tza_minus5, msPerDay. lia.
  - repeat (apply Forall_cons; [reflexivity|]). apply Forall_nil.
Defined.

(** ** Lookup, unique types, descriptions *)

(** When the ids of the collection are distinct, looking up the id of any
    of its records returns that record. *)
Theorem find_own_id (txs : list Transaction) (t : Transaction) :
  NoDup (map transaction_id txs) ->
  In t txs ->
  findTransactionById txs (transaction_id t) = Some t.
Proof.
  unfold findTransactionById.
  induction txs as [|x txs IH]; simpl; intros Hnd Hin; [destruct Hin|].
  inversion Hnd as [|? ? Hx Hnd']; subst.
  destruct (String.eqb_spec (transaction_id x) (transaction_id t)) as [Heq|Hne].
  - destruct Hin as [->|Hin]; [reflexivity|].
    exfalso. apply Hx. rewrite Heq. apply in_map, Hin.
  - destruct Hin as [->|Hin]; [congruence|]. apply IH; assumption.
Qed.

Lemma find_own_id_witness :
  findTransactionById transactions "3"
  = Some (mkTransaction "3" "2019-02-10" 50.0%float "debit"
            "Dinner with friends" "RestaurantABC" "debit").
Proof.
  apply (find_own_id transactions
           (mkTransaction "3" "2019-02-10" 50.0%float "debit"
              "Dinner with friends" "RestaurantABC" "debit")).
  - repeat (apply NoDup_cons; [simpl; intuition discriminate|]). apply NoDup_nil.
  - simpl. auto.
Defined.

(** [getUniqueTransactionTypes] is empty for the empty collection only, has
    at most as many entries as there are records, and at most the two
    entries "debit" and "credit" when no other type occurs. *)
Theorem unique_types_size (txs : list Transaction) :
  (getUniqueTransactionTypes txs = [] <-> txs = [])
  /\ (List.length (getUniqueTransactionTypes txs) <= List.length txs)%nat
  /\ (Forall (fun t => transaction_type t = "debit"
                       \/ transaction_type t = "credit") txs ->
      (List.length (getUniqueTransactionTypes txs) <= 2)%nat
      /\ incl (getUniqueTransactionTypes txs) ["debit"; "credit"]).
Proof.
  unfold getUniqueTransactionTypes, set_of_list.
  destruct (set_fill_spec (map transaction_type txs) [] (NoDup_nil _))
    as (Hnd & Hin & _).
  set (r := fold_left set_add (map transaction_type txs) []) in *.
  split; [|split].
  - split.
    + intros Hr. destruct txs as [|t txs]; [reflexivity|].
      assert (Ht : In (transaction_type t) r)
        by (apply Hin; right; left; reflexivity).
      rewrite Hr in Ht. destruct Ht.
    + intros ->. reflexivity.
  - rewrite <- (length_map transaction_type txs).
    apply NoDup_incl_length; [exact Hnd|].
    intros x Hx. apply Hin in Hx. destruct Hx as [[]|Hx]. exact Hx.
  - intros Hall.
    assert (Hincl : incl r ["debit"; "credit"]).
    { intros x Hx. apply Hin in Hx. destruct Hx as [[]|Hx].
      apply in_map_iff in Hx. destruct Hx as (t & <- & Ht).
      rewrite Forall_forall in Hall.
      destruct (Hall t Ht) as [-> | ->]; simpl; auto. }
    split; [|exact Hincl].
    apply (NoDup_incl_length Hnd Hincl).
Qed.

Lemma unique_types_size_witness :
  (List.length (getUniqueTransactionTypes transactions) <= 2)%nat
  /\ incl (getUniqueTransactionTypes transactions) ["debit"; "credit"].
Proof.
  apply (proj2 (proj2 (unique_types_size transactions))).
  repeat (apply Forall_cons; [simpl; auto|]). apply Forall_nil.
Defined.

Lemma subseq_map {A B : Type} (f : A -> B) (l1 l2 : list A) :
  subseq l1 l2 -> subseq (map f l1) (map f l2).
Proof. induction 1; simpl; constructor; assumption. Qed.

(** [mapTransactionDescriptions] returns one description per record, at the
    position of its record; the descriptions of the records of one merchant
    are among those of the whole collection, in the same order. *)
Theorem descriptions_positions (txs : list Transaction) :
  List.length (mapTransactionDescriptions txs) = List.length txs
  /\ (forall i, nth_error (mapTransactionDescriptions txs) i
                = option_map transaction_description (nth_error txs i))
  /\ (forall merchantName,
        subseq (mapTransactionDescriptions
                  (getTransactionsByMerchant txs merchantName))
               (mapTransactionDescriptions txs)).
Proof.
  unfold mapTransactionDescriptions. split; [apply length_map|]. split.
  - intros i. apply nth_error_map.
  - intros merchantName. apply subseq_map, filter_subseq.
Qed.

(** When every record is a debit the debit total is the total; when none
    is, the debit total is 0. *)
Theorem debit_total_edges (txs : list Transaction) :
  (Forall (fun t => transaction_type t = "debit") txs ->
   calculateTotalDebitAmount txs = calculateTotalAmount txs)
  /\ (Forall (fun t => transaction_type t <> "debit") txs ->
      calculateTotalDebitAmount txs = 0%float).
Proof.
  unfold calculateTotalDebitAmount, calculateTotalAmount. split; intros Hall.
  - replace (filter is_debit txs) with txs; [reflexivity|].
    induction Hall as [|t txs Ht _ IH]; simpl; [reflexivity|].
    unfold is_debit at 1. rewrite Ht. simpl. f_equal. exact IH.
  - rewrite filter_none; [reflexivity|].
    intros t Ht. rewrite Forall_forall in Hall.
    apply String.eqb_neq, Hall, Ht.
Qed.

Lemma debit_total_edges_witness :
  calculateTotalDebitAmount large_first = calculateTotalAmount large_first.
Proof.
  apply (proj1 (debit_total_edges large_first)).
  repeat (apply Forall_cons; [reflexivity|]). apply Forall_nil.
Defined.

(** ** The average *)

Lemma shr_nonneg (mrs : shr_record) (e n : Z) :
  0 <= shr_m mrs -> 0 <= shr_m (fst (shr mrs e n)).
Proof.
  intros Hm. destruct n as [|p|p]; try exact Hm.
  unfold shr. cbn [fst]. rewrite iter_pos_nat.
  induction (Pos.to_nat p) as [|j IH]; [exact Hm|].
  change (Nat.iter (S j) shr_1 mrs) with (shr_1 (Nat.iter j shr_1 mrs)).
  destruct (Nat.iter j shr_1 mrs) as [m r s0].
  cbn [shr_m] in IH. rewrite shr_1_spec by exact IH. cbn [shr_m].
  apply Z.div_pos; lia.
Qed.

Lemma shr_fexp_nonneg (m e : Z) (l : location) :
  0 <= m -> 0 <= shr_m (fst (shr_fexp prec emax m e l)).
Proof.
  intros Hm. unfold shr_fexp. apply shr_nonneg.
  destruct l as [|[]]; exact Hm.
Qed.

Lemma round_nearest_even_nonneg (m : Z) (l : location) :
  0 <= m -> 0 <= round_nearest_even m l.
Proof.
  intros Hm. destruct l as [|[]]; cbn [round_nearest_even];
    try destruct (Z.even m); lia.
Qed.

(** Rounding a non-negative mantissa never gives NaN or a negative
    number. *)
Lemma binary_round_aux_nonneg (m e : Z) (l : location) :
  0 <= m -> SFnonneg (binary_round_aux prec emax false m e l) = true.
Proof.
  intros Hm. unfold binary_round_aux.
  pose proof (shr_fexp_nonneg m e l Hm) as H1.
  destruct (shr_fexp prec emax m e l) as [mrs' e']. cbn [fst] in H1.
  pose proof (shr_fexp_nonneg _ e' loc_Exact
                (round_nearest_even_nonneg _ (loc_of_shr_record mrs') H1)) as H2.
  destruct (shr_fexp prec emax _ e' loc_Exact) as [mrs'' e'']. cbn [fst] in H2.
  destruct (shr_m mrs'') as [|p|p]; [reflexivity| |lia].
  destruct (e'' <=? emax - prec); reflexivity.
Qed.

Lemma SFdiv_nonneg (x : spec_float) (my : positive) (ey : Z) :
  SFnonneg x = true ->
  SFnonneg (SF64div x (S754_finite false my ey)) = true.
Proof.
  intros Hx. destruct x as [sx|sx| |sx mx ex]; try discriminate Hx.
  - destruct sx; reflexivity.
  - destruct sx; [discriminate Hx | reflexivity].
  - destruct sx; [discriminate Hx|].
    unfold SF64div, SFdiv, SFdiv_core_binary. cbv zeta.
    match goal with
    | |- context [Z.div_eucl ?a ?b] =>
        pose proof (Z.div_pos a b) as Hq; unfold Z.div in Hq;
        destruct (Z.div_eucl a b) as [q r] eqn:Hdiv
    end.
    cbn [xorb]. apply binary_round_aux_nonneg. apply Hq; [|lia].
    match goal with
    | |- 0 <= match ?s with | 0 => _ | Z.pos _ => _ | Z.neg _ => _ end =>
        destruct s eqn:Hs; try lia
    end.
    apply Z.shiftl_nonneg. lia.
Qed.

Lemma length_number_finite {A : Type} (l : list A) :
  l <> [] -> Z.of_nat (List.length l) < 2 ^ 53 ->
  exists m e, Prim2SF (length_number l) = S754_finite false m e.
Proof.
  intros Hne Hlen.
  destruct (length_number_exact l Hlen) as [Hnn Hval].
  apply fnonneg_spec in Hnn. unfold float_value in Hval.
  assert (Hpos : 0 < Z.of_nat (List.length l)).
  { destruct l; [congruence | simpl; lia]. }
  assert (Hp : 0 < 2 ^ 1074) by reflexivity.
  assert (Hv : 0 < SFvalue (Prim2SF (length_number l)) < inf_value).
  { rewrite Hval. split; [apply Z.mul_pos_pos; assumption|].
    assert (Z.of_nat (List.length l) * 2 ^ 1074 < 2 ^ 53 * 2 ^ 1074)
      by (apply Z.mul_lt_mono_pos_r; assumption).
    eapply Z.lt_trans; [eassumption|]. reflexivity. }
  destruct (Prim2SF (length_number l)) as [s|s| |s m e];
    try discriminate Hnn.
  - cbn [SFvalue] in Hv. lia.
  - cbn [SFvalue] in Hv. lia.
  - destruct s; [discriminate Hnn|]. eauto.
Qed.

(** With non-negative amounts the average is a non-negative number and
    never NaN (it is [0] for the empty collection, and [Infinity] when
    the total overflows). *)
Theorem average_nonneg (txs : list Transaction) :
  Forall (fun t => (0 <=? transaction_amount t)%float = true) txs ->
  Z.of_nat (List.length txs) < 2 ^ 53 ->
  (0 <=? calculateAverageTransactionAmount txs)%float = true
  /\ PrimFloat.is_nan (calculateAverageTransactionAmount txs) = false.
Proof.
  intros Hall Hlen.
  assert (Hnn : fnonneg (calculateAverageTransactionAmount txs)).
  { destruct txs as [|t txs]; [reflexivity|].
    unfold calculateAverageTransactionAmount.
    destruct (length_number_finite (t :: txs) ltac:(discriminate) Hlen)
      as (m & e & Hfin).
    destruct (fold_add_nonneg (t :: txs) 0%float Hall eq_refl) as [Htot _].
    apply fnonneg_spec in Htot. apply fnonneg_spec.
    rewrite div_spec, Hfin. apply SFdiv_nonneg. exact Htot. }
  split; [exact Hnn | apply (fleb_not_nan _ _ Hnn)].
Qed.

Lemma average_nonneg_witness :
  (0 <=? calculateAverageTransactionAmount transactions)%float = true
  /\ PrimFloat.is_nan (calculateAverageTransactionAmount transactions) = false.
Proof.
  apply (average_nonneg transactions).
  - repeat (apply Forall_cons; [reflexivity|]). apply Forall_nil.
  - reflexivity.
Defined.

(** * Statements on written months and on exact numbers *)

(** ** Whole numbers *)

Lemma whole_of_nonneg (x : float) (k : Z) :
  fnonneg x -> float_value x = k * 2 ^ 1074 -> k * 2 ^ 1074 < inf_value ->
  float_is_whole x k.
Proof.
  intros Hnn Hval Hlt. apply fnonneg_spec in Hnn.
  unfold float_value in Hval. unfold float_is_whole.
  destruct (Prim2SF x) as [s|s| |s m e]; try discriminate Hnn.
  - split; [reflexivity | exact Hval].
  - cbn [SFvalue] in Hval. lia.
  - destruct s; [discriminate Hnn|]. split; [reflexivity | exact Hval].
Qed.

Lemma whole_nonneg (x : float) (k : Z) :
  0 <= k -> float_is_whole x k ->
  fnonneg x /\ float_value x = k * 2 ^ 1074.
Proof.
  intros Hk [Hfin Hval]. rewrite fnonneg_spec. unfold float_value.
  pose proof (Prim2SF_valid x) as Hv.
  assert (Hp : 0 < 2 ^ 1074) by reflexivity.
  destruct (Prim2SF x) as [s|s| |s m e]; try discriminate Hfin.
  - split; [reflexivity | exact Hval].
  - pose proof (SFvalue_finite_range s m e Hv) as Hr.
    unfold SFvalue in Hr. cbn [SFsigned] in Hval.
    destruct s; [nia|]. split; [reflexivity | exact Hval].
Qed.

(** C3. On a non-empty collection [calculateAverageTransactionAmount] is
    [calculateTotalAmount] divided by the number of records: the divisor
    is the number that is exactly the count of the records (an array has
    fewer than [2^32] elements).  On the empty collection it is 0. *)
Theorem C3_average_is_total_over_count (txs : list Transaction) :
  (txs = [] -> calculateAverageTransactionAmount txs = 0%float)
  /\ (txs <> [] ->
      Z.of_nat (List.length txs) < 2 ^ 32 ->
      exists n : float,
        float_is_whole n (Z.of_nat (List.length txs))
        /\ calculateAverageTransactionAmount txs
           = (calculateTotalAmount txs / n)%float).
Proof.
  split.
  - intros ->. reflexivity.
  - intros Hne Hlen. exists (length_number txs). split.
    + assert (Hlen' : Z.of_nat (List.length txs) < 2 ^ 53).
      { eapply Z.lt_trans; [exact Hlen | reflexivity]. }
      destruct (length_number_exact txs Hlen') as [Hnn Hval].
      apply whole_of_nonneg; try assumption.
      assert (Z.of_nat (List.length txs) * 2 ^ 1074 < 2 ^ 32 * 2 ^ 1074)
        by (apply Z.mul_lt_mono_pos_r; [reflexivity | exact Hlen]).
      eapply Z.lt_trans; [eassumption | reflexivity].
    + destruct txs; [congruence | reflexivity].
Qed.

Lemma C3_average_is_total_over_count_witness :
  exists n : float,
    float_is_whole n (Z.of_nat (List.length transactions))
    /\ calculateAverageTransactionAmount transactions
       = (calculateTotalAmount transactions / n)%float.
Proof.
  apply (proj2 (C3_average_is_total_over_count transactions)).
  - discriminate.
  - reflexivity.
Defined.

(** With whole non-negative amounts whose sum is below [2^53] no rounding
    occurs: the total is the number that is exactly the sum of the
    amounts. *)
Theorem total_is_exact_sum (txs : list Transaction) (ns : list Z) :
  Forall2 (fun t n => 0 <= n /\ float_is_whole (transaction_amount t) n)
    txs ns ->
  sum_Z ns < 2 ^ 53 ->
  float_is_whole (calculateTotalAmount txs) (sum_Z ns).
Proof.
  intros Hall Hsum.
  assert (Hw : Forall2 whole_amount txs ns).
  { eapply Forall2_impl; [|exact Hall]. intros t n [Hn Ht].
    destruct (whole_nonneg _ _ Hn Ht) as [Hnn Hval].
    repeat split; assumption. }
  assert (Hnn : Forall (fun t => fnonneg (transaction_amount t)) txs).
  { clear -Hw. induction Hw as [|t n txs ns (_ & Ht & _) _ IH];
      constructor; assumption. }
  pose proof (whole_amounts_sum_nonneg txs ns Hw) as Hpos.
  apply whole_of_nonneg.
  - apply (fold_add_nonneg txs 0%float Hnn eq_refl).
  - apply total_value_for_whole_amounts; assumption.
  - assert (sum_Z ns * 2 ^ 1074 < 2 ^ 53 * 2 ^ 1074)
      by (apply Z.mul_lt_mono_pos_r; [reflexivity | exact Hsum]).
    eapply Z.lt_trans; [eassumption | reflexivity].
Qed.

Lemma total_is_exact_sum_witness :
  float_is_whole (calculateTotalAmount transactions)
    (sum_Z [100; 150; 50; 200; 80]).
Proof.
  apply (total_is_exact_sum transactions [100; 150; 50; 200; 80]).
  - repeat (apply Forall2_cons;
            [split; [lia | split; vm_compute; reflexivity]|]).
    apply Forall2_nil.
  - reflexivity.
Defined.

(** ** Months as written in the records *)

(** On a host at UTC or east of it the key a record is counted under is
    its written month. *)
Lemma tx_month_key_east (tza : Z -> Z) (t : Transaction) (y m d : Z) :
  tza_east tza ->
  date_fields (transaction_date t) = Some (y, m, d) ->
  tx_month_key tza t = month_key (Some m) /\ 1 <= m <= 12.
Proof.
  intros Hb Hf. destruct (getters_east tza _ y m d Hb Hf) as (_ & Hm & _).
  destruct (date_fields_valid _ y m d Hf) as [Hr _].
  unfold tx_month_key. rewrite Hm. auto.
Qed.

Lemma month_key_eqb (a b : Z) :
  1 <= a <= 12 -> 1 <= b <= 12 ->
  key_eqb (month_key (Some a)) (month_key (Some b)) = (a =? b).
Proof.
  intros Ha Hb. cbn [month_key key_eqb].
  destruct (Z.eqb_spec a b) as [->|Hne]; [apply N.eqb_refl|].
  apply N.eqb_neq. lia.
Qed.

Lemma month_count_written (tza : Z -> Z) (txs : list Transaction) (m : Z) :
  tza_east tza -> valid_dates txs -> 1 <= m <= 12 ->
  month_count tza txs (month_key (Some m)) = written_month_count txs m.
Proof.
  intros Hb Hv Hm. unfold month_count, written_month_count. f_equal.
  induction Hv as [|t txs Ht _ IH]; [reflexivity|].
  cbn [filter]. rewrite IH. unfold written_month.
  destruct (date_fields (transaction_date t)) as [[[y mt] d]|] eqn:Hf;
    [|congruence].
  destruct (tx_month_key_east tza t y mt d Hb Hf) as [-> Hr].
  rewrite (month_key_eqb mt m Hr Hm). reflexivity.
Qed.

(** On a host at UTC or east of it, over a non-empty collection with valid
    dates, the month query returns a written month with the highest
    number of records, the greatest one on a tie. *)
Lemma most_month_written (tza : Z -> Z) (txs : list Transaction) :
  tza_east tza -> valid_dates txs -> txs <> [] ->
  exists t y m d,
    In t txs
    /\ date_fields (transaction_date t) = Some (y, m, d)
    /\ findMostTransactionsMonth tza txs = JString (month_string m)
    /\ forall u yu mu du,
         In u txs ->
         date_fields (transaction_date u) = Some (yu, mu, du) ->
         (written_month_count txs mu <= written_month_count txs m)%nat
         /\ (written_month_count txs mu = written_month_count txs m ->
             mu <= m).
Proof.
  intros Hb Hv Hne.
  destruct (most_month_highest tza txs Hne) as (t & Ht & Hres & Hmax).
  pose proof Hv as Hv'. unfold valid_dates in Hv'. rewrite Forall_forall in Hv'.
  destruct (date_fields (transaction_date t)) as [[[y m] d]|] eqn:Hf;
    [|destruct (Hv' t Ht Hf)].
  destruct (tx_month_key_east tza t y m d Hb Hf) as [Hk Hr].
  exists t, y, m, d. split; [exact Ht|]. split; [exact Hf|].
  split; [rewrite Hres, Hk; reflexivity|].
  intros u yu mu du Hu Hfu.
  destruct (tx_month_key_east tza u yu mu du Hb Hfu) as [Hku Hru].
  destruct (Hmax u Hu) as [Hle Htie].
  rewrite Hk, Hku in Hle, Htie.
  rewrite !(month_count_written tza txs) in Hle, Htie by assumption.
  split; [exact Hle|]. intros Heq. specialize (Htie Heq).
  cbn [month_key key_le] in Htie. lia.
Qed.

(** C1 (amended). On a host at UTC or east of it, over a collection whose
    dates are valid [YYYY-MM-DD] dates: on a non-empty collection
    [findMostTransactionsMonth] returns, as a string, a month in which the
    most records are dated, and when several months are tied for the
    highest count it returns the greatest of them; on the empty collection
    it returns [null]. *)
Theorem C1_greatest_tied_month (tza : Z -> Z) (txs : list Transaction) :
  tza_east tza -> valid_dates txs ->
  (txs = [] -> findMostTransactionsMonth tza txs = JNull)
  /\ (txs <> [] ->
      exists t y m d,
        In t txs
        /\ date_fields (transaction_date t) = Some (y, m, d)
        /\ findMostTransactionsMonth tza txs = JString (month_string m)
        /\ forall u yu mu du,
             In u txs ->
             date_fields (transaction_date u) = Some (yu, mu, du) ->
             (written_month_count txs mu <= written_month_count txs m)%nat
             /\ (written_month_count txs mu = written_month_count txs m ->
                 mu <= m)).
Proof.
  intros Hb Hv. split.
  - intros ->. reflexivity.
  - apply most_month_written; assumption.
Qed.

Lemma C1_greatest_tied_month_witness :
  tza_east tza_utc /\ valid_dates tie_sample
  /\ exists t y m d,
       In t tie_sample
       /\ date_fields (transaction_date t) = Some (y, m, d)
       /\ findMostTransactionsMonth tza_utc tie_sample = JString (month_string m)
       /\ forall u yu mu du,
            In u tie_sample ->
            date_fields (transaction_date u) = Some (yu, mu, du) ->
            (written_month_count tie_sample mu
             <= written_month_count tie_sample m)%nat
            /\ (written_month_count tie_sample mu
                = written_month_count tie_sample m -> mu <= m).
Proof.
  assert (Hb : tza_east tza_utc) by (intros t; unfold tza_utc, msPerDay; lia).
  assert (Hv : valid_dates tie_sample)
    by (repeat (apply Forall_cons; [discriminate|]); apply Forall_nil).
  split; [exact Hb|]. split; [exact Hv|].
  apply (proj2 (C1_greatest_tied_month tza_utc tie_sample Hb Hv)).
  discriminate.
Defined.

(** [findMostDebitTransactionMonth] returns [null] when the collection has
    no debit record, even if it is not empty.  On a host at UTC or east of
    it and with valid dates, when there is a debit record it returns the
    month in which the most debit records are dated, the greatest such
    month on a tie. *)
Theorem most_debit_month_written (tza : Z -> Z) (txs : list Transaction) :
  (Forall (fun t => transaction_type t <> "debit") txs ->
   findMostDebitTransactionMonth tza txs = JNull)
  /\ (tza_east tza -> valid_dates txs ->
      Exists (fun t => transaction_type t = "debit") txs ->
      exists t y m d,
        In t txs /\ transaction_type t = "debit"
        /\ date_fields (transaction_date t) = Some (y, m, d)
        /\ findMostDebitTransactionMonth tza txs = JString (month_string m)
        /\ forall u yu mu du,
             In u txs -> transaction_type u = "debit" ->
             date_fields (transaction_date u) = Some (yu, mu, du) ->
             (written_month_count (getTransactionByType txs "debit") mu
              <= written_month_count (getTransactionByType txs "debit") m)%nat
             /\ (written_month_count (getTransactionByType txs "debit") mu
                 = written_month_count (getTransactionByType txs "debit") m ->
                 mu <= m)).
Proof.
  unfold findMostDebitTransactionMonth.
  change (filter is_debit txs) with (getTransactionByType txs "debit").
  set (debits := getTransactionByType txs "debit").
  assert (Hmem : forall t, In t debits <-> In t txs /\ transaction_type t = "debit").
  { intros t. unfold debits, getTransactionByType.
    rewrite filter_In, String.eqb_eq. tauto. }
  split.
  - intros Hnone. replace debits with (@nil Transaction); [reflexivity|].
    symmetry. apply filter_none. intros t Ht.
    rewrite Forall_forall in Hnone. apply String.eqb_neq. apply Hnone, Ht.
  - intros Hb Hv Hsome.
    apply Exists_exists in Hsome. destruct Hsome as (d0 & Hd & Hty).
    assert (Hne : debits <> []).
    { intros Hnil. assert (Hin : In d0 debits) by (apply Hmem; auto).
      rewrite Hnil in Hin. destruct Hin. }
    assert (Hvd : valid_dates debits).
    { unfold valid_dates in *. rewrite Forall_forall in *.
      intros t Ht. apply Hv, Hmem, Ht. }
    destruct (most_month_written tza debits Hb Hvd Hne)
      as (t & y & m & d & Ht & Hf & Hres & Hmax).
    apply Hmem in Ht. destruct Ht as [Ht Htd].
    exists t, y, m, d. repeat split; try assumption.
    + apply (Hmax u yu mu du); [apply Hmem; auto | assumption].
    + apply (Hmax u yu mu du); [apply Hmem; auto | assumption].
Qed.

Lemma most_debit_month_written_witness :
  findMostDebitTransactionMonth tza_utc
    (getTransactionByType transactions "credit") = JNull
  /\ exists t y m d,
       In t transactions /\ transaction_type t = "debit"
       /\ date_fields (transaction_date t) = Some (y, m, d)
       /\ findMostDebitTransactionMonth tza_utc transactions
          = JString (month_string m)
       /\ forall u yu mu du,
            In u transactions -> transaction_type u = "debit" ->
            date_fields (transaction_date u) = Some (yu, mu, du) ->
            (written_month_count (getTransactionByType transactions "debit") mu
             <= written_month_count (getTransactionByType transactions "debit") m)%nat
            /\ (written_month_count (getTransactionByType transactions "debit") mu
                = written_month_count (getTransactionByType transactions "debit") m ->
                mu <= m).
Proof.
  split.
  - apply (proj1 (most_debit_month_written tza_utc
                    (getTransactionByType transactions "credit"))).
    repeat (apply Forall_cons; [discriminate|]). apply Forall_nil.
  - apply (proj2 (most_debit_month_written tza_utc transactions)).
    + intros t; unfold tza_utc, msPerDay; lia.
    + repeat (apply Forall_cons; [discriminate|]); apply Forall_nil.
    + apply Exists_cons_hd. reflexivity.
Defined.

(** On a host at UTC or east of it and with valid dates, after the counting
    loop the counter object lists its keys in key order, holds under the
    key of each month the number of records dated in that month, and has
    no key but those of months in which a record is dated. *)
Theorem month_counts_by_written_month (tza : Z -> Z) (txs : list Transaction) :
  tza_east tza -> valid_dates txs ->
  keys_ordered (month_counts tza txs)
  /\ (forall m, 1 <= m <= 12 ->
        obj_get (month_counts tza txs) (month_key (Some m))
        = if Nat.eqb (written_month_count txs m) 0 then None
          else Some (written_month_count txs m))
  /\ (forall k, In k (obj_keys (month_counts tza txs)) ->
        exists m, 1 <= m <= 12 /\ k = month_key (Some m)
                  /\ (0 < written_month_count txs m)%nat).
Proof.
  intros Hb Hv. destruct (month_counts_spec tza txs) as [Hord Hget].
  split; [exact Hord|]. split.
  - intros m Hm. rewrite Hget, (month_count_written tza txs m Hb Hv Hm).
    reflexivity.
  - intros k Hk. pose proof Hk as Hpos.
    apply month_counts_keys in Hpos.
    apply month_counts_keys, month_count_pos in Hk.
    destruct Hk as (t & Ht & Hkt).
    pose proof Hv as Hv'. unfold valid_dates in Hv'.
    rewrite Forall_forall in Hv'.
    destruct (date_fields (transaction_date t)) as [[[y m] d]|] eqn:Hf;
      [|destruct (Hv' t Ht Hf)].
    destruct (tx_month_key_east tza t y m d Hb Hf) as [Hkey Hr].
    exists m. split; [exact Hr|]. split; [congruence|].
    rewrite <- (month_count_written tza txs m Hb Hv Hr).
    rewrite <- Hkey, Hkt. exact Hpos.
Qed.

Lemma month_counts_by_written_month_witness :
  obj_get (month_counts tza_utc transactions) (month_key (Some 2))
  = if Nat.eqb (written_month_count transactions 2) 0 then None
    else Some (written_month_count transactions 2).
Proof.
  apply (proj1 (proj2 (month_counts_by_written_month tza_utc transactions
                         ltac:(intros t; unfold tza_utc, msPerDay; lia)
                         ltac:(repeat (apply Forall_cons; [discriminate|]);
                               apply Forall_nil)))).
  lia.
Defined.
